(** * The Jobivo aggregator: the in-memory offer store of
      [jobivo_aggregator.py] and its list, search, save and hide handlers.

    The module keeps three globals: the catalog [_fake_jobs] and the two
    time-stamped dictionaries [_saved_jobs] and [_hidden_jobs].  The handlers
    are embedded as computations over a store holding these three globals, in
    a state-and-exception monad: [del d[k]] on a missing key raises
    [KeyError], and the result of a handler is either a value together with
    the store it leaves, or an exception.

    Conventions of the embedding.
    - A [datetime] is its number of microseconds (the resolution of
      [datetime]) as a [Z]; [timedelta(days=90)] is the matching number of
      microseconds.  The clock reading [datetime.utcnow()] of a call is the
      argument [now] of the handler.
      The range of [datetime] (years 1 to 9999) is not modelled: the clock
      is taken to be more than 90 days after [datetime.min], so that the
      subtraction of the 90 days does not overflow.
    - A [str] is a [string]; the builtin [str.lower] is a parameter [lower]
      of the search handler, so that nothing proved for every store depends
      on how it folds case.  [lower_ascii] is its value on ASCII text.
    - A catalog entry, a [Dict] with the seven keys of [JobOffer], is a
      record. *)

From Stdlib Require Import ZArith String Ascii List DecimalString DecimalNat Lia.
From stdpp Require Import base option gmap strings list fin_maps.

Local Open Scope Z_scope.

(** ** Data model *)

Record JobOffer : Type := {
  id : string;
  title : string;
  company : string;
  location : string;
  description : string;
  source : string;
  url : string
}.

Record SaveHideResponse : Type := { message : string }.

(** The module-level state. *)
Record store : Type := {
  _fake_jobs : list JobOffer;
  _saved_jobs : gmap string Z;
  _hidden_jobs : gmap string Z
}.

(** The two dictionaries the clean-up loop ranges over,
    [for job_dict in (_saved_jobs, _hidden_jobs)]. *)
Inductive job_dict : Type := SavedJobs | HiddenJobs.

Definition get_dict (d : job_dict) (s : store) : gmap string Z :=
  match d with
  | SavedJobs => _saved_jobs s
  | HiddenJobs => _hidden_jobs s
  end.

Definition set_dict (d : job_dict) (m : gmap string Z) (s : store) : store :=
  match d with
  | SavedJobs =>
      {| _fake_jobs := _fake_jobs s; _saved_jobs := m; _hidden_jobs := _hidden_jobs s |}
  | HiddenJobs =>
      {| _fake_jobs := _fake_jobs s; _saved_jobs := _saved_jobs s; _hidden_jobs := m |}
  end.

Definition other_dict (d : job_dict) : job_dict :=
  match d with
  | SavedJobs => HiddenJobs
  | HiddenJobs => SavedJobs
  end.

(** ** The state-and-exception monad *)

Inductive exn : Type := KeyError (key : string).

Inductive outcome (A : Type) : Type :=
  | Return (a : A) (s : store)
  | Raise (e : exn) (s : store).
Arguments Return {A} a s.
Arguments Raise {A} e s.

Definition M (A : Type) : Type := store → outcome A.

#[global] Instance M_ret : MRet M := λ A (a : A) s, Return a s.

#[global] Instance M_bind : MBind M := λ A B (f : A → M B) (m : M A) s,
  match m s with
  | Return a s' => f a s'
  | Raise e s' => Raise e s'
  end.

Definition gets {A : Type} (f : store → A) : M A := λ s, Return (f s) s.

Definition modify (f : store → store) : M unit := λ s, Return tt (f s).

Definition raise {A : Type} (e : exn) : M A := λ s, Raise e s.

(** [for x in xs: body(x)]. *)
Fixpoint for_each {A : Type} (xs : list A) (body : A → M unit) : M unit :=
  match xs with
  | [] => mret tt
  | x :: xs' => body x ≫= λ _, for_each xs' body
  end.

(** ** Builtins of Python used by the handlers *)

(** [k in d]. *)
Definition dict_mem (k : string) (d : gmap string Z) : bool :=
  match d !! k with
  | Some _ => true
  | None => false
  end.

(** [del d[k]], which raises [KeyError] when [k] is not a key. *)
Definition del_item (d : job_dict) (k : string) : M unit :=
  m ← gets (get_dict d);
  match m !! k with
  | Some _ => modify (set_dict d (delete k m))
  | None => raise (KeyError k)
  end.

(** [d[k] = v]. *)
Definition set_item (d : job_dict) (k : string) (v : Z) : M unit :=
  modify (λ s, set_dict d (<[k := v]> (get_dict d s)) s).

(** [xs[:limit]]: a negative bound counts from the end of the list. *)
Definition slice_to {A : Type} (limit : Z) (xs : list A) : list A :=
  if 0 <=? limit then firstn (Z.to_nat limit) xs
  else firstn (Z.to_nat (Z.of_nat (length xs) + limit)) xs.

(** The truth value of a string: empty is false. *)
Definition truthy (s : string) : bool :=
  match s with
  | EmptyString => false
  | String _ _ => true
  end.

(** [needle in hay] on strings: [needle] occurs at some position of [hay]. *)
Fixpoint str_in (needle hay : string) : bool :=
  String.prefix needle hay ||
  match hay with
  | EmptyString => false
  | String _ hay' => str_in needle hay'
  end.

(** [timedelta(days=n)] in microseconds. *)
Definition timedelta_days (n : Z) : Z := n * 86400 * 1000000.

(** [str.lower] on ASCII text. *)
Definition lower_char (c : ascii) : ascii :=
  let n := N_of_ascii c in
  if ((65 <=? n) && (n <=? 90))%N then ascii_of_N (n + 32) else c.

Fixpoint lower_ascii (s : string) : string :=
  match s with
  | EmptyString => EmptyString
  | String c s' => String (lower_char c) (lower_ascii s')
  end.

(** [f"{i}"] for a natural number. *)
Definition format_int (i : nat) : string := NilEmpty.string_of_uint (Nat.to_uint i).

(** ** The handlers *)

(** The clean-up loop at the head of [list_offers] and of [search_offers]
    (the two copies are the same text):
    the expired keys of a dictionary are collected first and deleted next.
    The keys come in the order of [map_to_list], not in the insertion order
    of a [dict]; the loop is shown below to end in the same dictionary for
    every order, the keys being distinct. *)
Definition expired_ids (cutoff : Z) (d : job_dict) : M (list string) :=
  gets (λ s, map fst (List.filter (λ item : string * Z, snd item <? cutoff)
                                  (map_to_list (get_dict d s)))).

Definition remove_expired (cutoff : Z) : M unit :=
  for_each [SavedJobs; HiddenJobs] (λ d,
    ids ← expired_ids cutoff d;
    for_each ids (λ job_id, del_item d job_id)).

Definition not_tracked (s : store) (job : JobOffer) : bool :=
  negb (dict_mem (id job) (_saved_jobs s)) && negb (dict_mem (id job) (_hidden_jobs s)).

Definition list_offers (now : Z) (limit : Z) : M (list JobOffer) :=
  let cutoff := now - timedelta_days 90 in
  remove_expired cutoff;;
  available ← gets (λ s, List.filter (not_tracked s) (_fake_jobs s));
  mret (slice_to limit available).

Section Search.
Variable lower : string → string.

Definition matches (q loc : string) (s : store) (job : JobOffer) : bool :=
  if dict_mem (id job) (_saved_jobs s) || dict_mem (id job) (_hidden_jobs s) then false
  else if truthy q &&
          negb (str_in (lower q)
                       (lower (title job) +:+ " " +:+ lower (description job)))
  then false
  else if truthy loc && negb (str_in (lower loc) (lower (location job))) then false
  else true.

Definition search_offers (q loc : string) (radius : Z) (pensum : string)
    (now : Z) (limit : Z) : M (list JobOffer) :=
  let cutoff := now - timedelta_days 90 in
  remove_expired cutoff;;
  filtered ← gets (λ s, List.filter (matches q loc s) (_fake_jobs s));
  mret (slice_to limit filtered).
End Search.

Definition save_offer (now : Z) (payload : JobOffer) : M SaveHideResponse :=
  let job_id := id payload in
  set_item SavedJobs job_id now;;
  mret {| message := "Job saved successfully" |}.

Definition hide_offer (now : Z) (payload : JobOffer) : M SaveHideResponse :=
  let job_id := id payload in
  set_item HiddenJobs job_id now;;
  mret {| message := "Job hidden successfully" |}.

(** The globals as the module initialises them. *)
Definition fake_job (i : nat) : JobOffer := {|
  id := "job-" +:+ format_int i;
  title := "Sample Job " +:+ format_int i;
  company := "ExampleCorp";
  location := "Zurich";
  description := "This is a sample job offer.";
  source := "demo";
  url := "https://example.com/job-" +:+ format_int i
|}.

Definition initial_store : store := {|
  _fake_jobs := map fake_job (seq 1 20);
  _saved_jobs := ∅;
  _hidden_jobs := ∅
|}.

(** ** Closed forms used by the statements *)

(** What the loop leaves of a dictionary: the entries that are not older
    than the cutoff. *)
Definition unexpired (cutoff : Z) (m : gmap string Z) : gmap string Z :=
  filter (λ item : string * Z, cutoff ≤ snd item) m.

Definition purged (cutoff : Z) (s : store) : store := {|
  _fake_jobs := _fake_jobs s;
  _saved_jobs := unexpired cutoff (_saved_jobs s);
  _hidden_jobs := unexpired cutoff (_hidden_jobs s)
|}.

Definition delete_all (ks : list string) (m : gmap string Z) : gmap string Z :=
  foldl (λ acc k, delete k acc) m ks.

(** The part of [matches] that looks at the text of an offer. *)
Definition matches_text (lower : string → string) (q loc : string) (job : JobOffer) : bool :=
  negb (truthy q &&
        negb (str_in (lower q) (lower (title job) +:+ " " +:+ lower (description job))))
  && negb (truthy loc && negb (str_in (lower loc) (lower (location job)))).

(** ** Stores used as concrete inputs *)

(** The default catalog with [job-1] saved at time 0 and hidden 100 days
    later. *)
Definition store_saved_then_hidden : store := {|
  _fake_jobs := map fake_job (seq 1 20);
  _saved_jobs := {[ "job-1" := 0 ]};
  _hidden_jobs := {[ "job-1" := timedelta_days 100 ]}
|}.

(** The default catalog with [job-1] saved at time 0 only. *)
Definition store_saved_once : store := {|
  _fake_jobs := map fake_job (seq 1 20);
  _saved_jobs := {[ "job-1" := 0 ]};
  _hidden_jobs := ∅
|}.

(** ** The origin list of the CORS middleware *)

(** [s.split(sep)] for a separator of one character: the pieces between the
    separators, the empty ones included. *)
Fixpoint str_split (sep : ascii) (s : string) : list string :=
  match s with
  | EmptyString => [EmptyString]
  | String c s' =>
      if Ascii.eqb c sep then EmptyString :: str_split sep s'
      else match str_split sep s' with
           | piece :: pieces => String c piece :: pieces
           | [] => [String c EmptyString]
           end
  end.

(** [os.getenv(name, default)] on an environment. *)
Definition getenv (environ : gmap string string) (name default : string) : string :=
  match environ !! name with
  | Some value => value
  | None => default
  end.

(** The number of occurrences of a character. *)
Fixpoint str_count (c : ascii) (s : string) : nat :=
  match s with
  | EmptyString => 0%nat
  | String a s' => ((if Ascii.eqb a c then 1 else 0) + str_count c s')%nat
  end.

(** The last character of a string, if any. *)
Fixpoint str_last (s : string) : option ascii :=
  match s with
  | EmptyString => None
  | String c EmptyString => Some c
  | String _ s' => str_last s'
  end.

Definition str_first (s : string) : option ascii :=
  match s with
  | EmptyString => None
  | String c _ => Some c
  end.

(** Whether every character of a string passes a test. *)
Fixpoint str_forallb (p : ascii → bool) (s : string) : bool :=
  match s with
  | EmptyString => true
  | String c s' => p c && str_forallb p s'
  end.

(** The white space of [str.isspace] among the ASCII characters. *)
Definition isspace_ascii (c : ascii) : bool :=
  let n := N_of_ascii c in
  (((9 <=? n) && (n <=? 13)) || ((28 <=? n) && (n <=? 32)))%N.

Section Origins.
(** Which characters [str.strip] removes: those of [str.isspace]. *)
Variable isspace : ascii → bool.

Fixpoint lstrip (s : string) : string :=
  match s with
  | EmptyString => EmptyString
  | String c s' => if isspace c then lstrip s' else s
  end.

Fixpoint rstrip (s : string) : string :=
  match s with
  | EmptyString => EmptyString
  | String c s' =>
      match rstrip s' with
      | EmptyString => if isspace c then EmptyString else String c EmptyString
      | rest => String c rest
      end
  end.

(** [s.strip()]. *)
Definition strip (s : string) : string := lstrip (rstrip s).

(** [allowed_origins], line 24 of the module. *)
Definition allowed_origins (environ : gmap string string) : list string :=
  map (λ origin, strip origin) (str_split "," (getenv environ "ALLOWED_ORIGINS" "*")).
End Origins.

(** ** The clean-up loop in closed form *)

Lemma get_set_dict d m s : get_dict d (set_dict d m s) = m.
Proof. by destruct d. Qed.

Lemma get_set_other d m s : get_dict (other_dict d) (set_dict d m s) = get_dict (other_dict d) s.
Proof. by destruct d. Qed.

Lemma set_set_dict d m1 m2 s : set_dict d m2 (set_dict d m1 s) = set_dict d m2 s.
Proof. by destruct d. Qed.

Lemma fake_jobs_set_dict d m s : _fake_jobs (set_dict d m s) = _fake_jobs s.
Proof. by destruct d. Qed.

Lemma del_item_present d k t s :
  get_dict d s !! k = Some t →
  del_item d k s = Return tt (set_dict d (delete k (get_dict d s)) s).
Proof. intros Hk. unfold del_item, gets, mbind, M_bind. by rewrite Hk. Qed.

Lemma del_item_absent d k s :
  get_dict d s !! k = None → del_item d k s = Raise (KeyError k) s.
Proof. intros Hk. unfold del_item, gets, mbind, M_bind. by rewrite Hk. Qed.

Lemma for_each_del_item d ks : ∀ s,
  NoDup ks →
  (∀ k, k ∈ ks → is_Some (get_dict d s !! k)) →
  for_each ks (del_item d) s = Return tt (set_dict d (delete_all ks (get_dict d s)) s).
Proof.
  induction ks as [|k ks IH]; intros s Hnd Hin; simpl.
  - unfold mret, M_ret, delete_all. simpl. by destruct d, s.
  - apply NoDup_cons in Hnd as [Hk Hnd].
    destruct (Hin k) as [t Ht]; [by left|].
    unfold mbind, M_bind. rewrite (del_item_present _ _ _ _ Ht).
    rewrite IH; [|done|].
    + by rewrite get_set_dict, set_set_dict.
    + intros k' Hk'. rewrite get_set_dict.
      rewrite lookup_delete_ne; [apply Hin; by right|].
      intros ->. contradiction.
Qed.

Lemma lookup_delete_all ks : ∀ (m : gmap string Z) j,
  delete_all ks m !! j = if decide (j ∈ ks) then None else m !! j.
Proof.
  induction ks as [|k ks IH]; intros m j.
  - rewrite decide_False; [done|apply not_elem_of_nil].
  - unfold delete_all in *. simpl foldl. rewrite IH.
    destruct (decide (j ∈ ks)) as [Hj|Hj].
    + rewrite decide_True; [done|by right].
    + destruct (decide (j = k)) as [->|Hne].
      * rewrite decide_True; [|by left]. apply lookup_delete_eq.
      * rewrite decide_False; [by apply lookup_delete_ne|].
        intros [?|?]%elem_of_cons; contradiction.
Qed.

Lemma NoDup_fst_filter (f : string * Z → bool) (l : list (string * Z)) :
  NoDup (map fst l) → NoDup (map fst (List.filter f l)).
Proof.
  induction l as [|x l IH]; simpl; [done|].
  intros [Hx Hnd]%NoDup_cons. destruct (f x); simpl; [|by apply IH].
  apply NoDup_cons. split; [|by apply IH].
  intros Hin. apply Hx. apply list_elem_of_In in Hin. apply list_elem_of_In.
  apply in_map_iff in Hin as (y & Hy & Hin). apply in_map_iff.
  exists y. split; [done|]. by apply filter_In in Hin as [? _].
Qed.

Lemma elem_of_expired cutoff (m : gmap string Z) k :
  k ∈ map fst (List.filter (λ item : string * Z, snd item <? cutoff) (map_to_list m))
  ↔ ∃ t, m !! k = Some t ∧ t < cutoff.
Proof.
  rewrite list_elem_of_In, in_map_iff. split.
  - intros ([k' t] & Hk & Hin). simpl in Hk. subst k'.
    apply filter_In in Hin as [Hin Ht]. simpl in Ht.
    apply list_elem_of_In, elem_of_map_to_list in Hin.
    exists t. split; [done|]. by apply Z.ltb_lt.
  - intros (t & Hk & Ht). exists (k, t). split; [done|].
    apply filter_In. split.
    + by apply list_elem_of_In, elem_of_map_to_list.
    + simpl. by apply Z.ltb_lt.
Qed.

Lemma lookup_unexpired cutoff (m : gmap string Z) k t :
  unexpired cutoff m !! k = Some t ↔ m !! k = Some t ∧ cutoff ≤ t.
Proof. unfold unexpired. by rewrite map_lookup_filter_Some. Qed.

Lemma lookup_unexpired_None cutoff (m : gmap string Z) k :
  unexpired cutoff m !! k = None ↔ ∀ t, m !! k = Some t → t < cutoff.
Proof.
  unfold unexpired. rewrite map_lookup_filter_None. split.
  - intros [Hk|Hk] t Ht; [congruence|]. specialize (Hk t Ht). simpl in Hk. lia.
  - intros H. right. intros t Ht. specialize (H t Ht). simpl. lia.
Qed.

Lemma delete_expired cutoff (m : gmap string Z) :
  delete_all (map fst (List.filter (λ item : string * Z, snd item <? cutoff) (map_to_list m))) m
  = unexpired cutoff m.
Proof.
  apply map_eq. intros k. rewrite lookup_delete_all.
  case_decide as Hk.
  - apply elem_of_expired in Hk as (t & Hk & Ht). symmetry.
    apply lookup_unexpired_None. intros t' Ht'. congruence.
  - destruct (m !! k) as [t|] eqn:Hm.
    + symmetry. apply lookup_unexpired. split; [done|].
      destruct (Z_lt_le_dec t cutoff) as [Hlt|Hle]; [|done].
      exfalso. apply Hk. apply elem_of_expired. eauto.
    + symmetry. apply lookup_unexpired_None. intros t' Ht'. congruence.
Qed.

Lemma remove_expired_dict cutoff d s :
  (ids ← expired_ids cutoff d; for_each ids (λ job_id, del_item d job_id)) s
  = Return tt (set_dict d (unexpired cutoff (get_dict d s)) s).
Proof.
  unfold mbind, M_bind, expired_ids, gets.
  rewrite for_each_del_item.
  - by rewrite delete_expired.
  - apply NoDup_fst_filter, NoDup_fst_map_to_list.
  - intros k (t & Hk & _)%elem_of_expired. eauto.
Qed.

Lemma remove_expired_purged cutoff s :
  remove_expired cutoff s = Return tt (purged cutoff s).
Proof.
  unfold remove_expired. simpl. unfold mbind at 1, M_bind at 1.
  rewrite remove_expired_dict. unfold mbind at 1, M_bind at 1.
  rewrite remove_expired_dict. by destruct s.
Qed.

(** ** The handlers in closed form *)

Lemma matches_split lower q loc s job :
  matches lower q loc s job = not_tracked s job && matches_text lower q loc job.
Proof.
  unfold matches, not_tracked, matches_text.
  destruct (dict_mem (id job) (_saved_jobs s)), (dict_mem (id job) (_hidden_jobs s));
    simpl; try reflexivity.
  destruct (truthy q && _); simpl; [reflexivity|].
  by destruct (truthy loc && _).
Qed.

Lemma matches_empty_filters lower s job : matches lower "" "" s job = not_tracked s job.
Proof. rewrite matches_split. unfold matches_text. simpl. by rewrite andb_true_r. Qed.

Lemma not_tracked_true s job :
  not_tracked s job = true ↔ _saved_jobs s !! id job = None ∧ _hidden_jobs s !! id job = None.
Proof.
  unfold not_tracked, dict_mem.
  destruct (_saved_jobs s !! id job), (_hidden_jobs s !! id job); simpl;
    split; try done; intros [? ?]; done.
Qed.

Lemma list_offers_run now limit s :
  list_offers now limit s =
  let s' := purged (now - timedelta_days 90) s in
  Return (slice_to limit (List.filter (not_tracked s') (_fake_jobs s'))) s'.
Proof.
  unfold list_offers. cbv zeta. unfold mbind at 1, M_bind at 1.
  by rewrite remove_expired_purged.
Qed.

Lemma search_offers_run lower q loc radius pensum now limit s :
  search_offers lower q loc radius pensum now limit s =
  let s' := purged (now - timedelta_days 90) s in
  Return (slice_to limit (List.filter (matches lower q loc s') (_fake_jobs s'))) s'.
Proof.
  unfold search_offers. cbv zeta. unfold mbind at 1, M_bind at 1.
  by rewrite remove_expired_purged.
Qed.

Lemma save_offer_run now payload s :
  save_offer now payload s =
  Return {| message := "Job saved successfully" |}
         (set_dict SavedJobs (<[id payload := now]> (_saved_jobs s)) s).
Proof. reflexivity. Qed.

Lemma hide_offer_run now payload s :
  hide_offer now payload s =
  Return {| message := "Job hidden successfully" |}
         (set_dict HiddenJobs (<[id payload := now]> (_hidden_jobs s)) s).
Proof. reflexivity. Qed.

(** ** Slices *)

Lemma slice_to_nonneg {A : Type} limit (xs : list A) :
  0 ≤ limit → slice_to limit xs = firstn (Z.to_nat limit) xs.
Proof. intros H. unfold slice_to. by rewrite (proj2 (Z.leb_le 0 limit) H). Qed.

Lemma slice_to_firstn {A : Type} limit (xs : list A) :
  ∃ n, slice_to limit xs = firstn n xs.
Proof. unfold slice_to. destruct (0 <=? limit); eauto. Qed.

Lemma In_slice_to {A : Type} limit (xs : list A) x : In x (slice_to limit xs) → In x xs.
Proof.
  destruct (slice_to_firstn limit xs) as [n ->]. intros H.
  rewrite <- (firstn_skipn n xs). apply in_or_app. by left.
Qed.

Lemma slice_to_all {A : Type} limit (xs : list A) :
  Z.of_nat (length xs) ≤ limit → slice_to limit xs = xs.
Proof.
  intros H. rewrite slice_to_nonneg by lia. apply firstn_all2. lia.
Qed.

Lemma purged_initial_store cutoff : purged cutoff initial_store = initial_store.
Proof.
  unfold purged, unexpired, initial_store. simpl. by rewrite map_filter_empty.
Qed.

Lemma lookup_purged cutoff d s k t :
  get_dict d (purged cutoff s) !! k = Some t ↔ get_dict d s !! k = Some t ∧ cutoff ≤ t.
Proof. destruct d; simpl; apply lookup_unexpired. Qed.

Lemma In_visible s job :
  In job (List.filter (not_tracked s) (_fake_jobs s))
  ↔ In job (_fake_jobs s) ∧ _saved_jobs s !! id job = None ∧ _hidden_jobs s !! id job = None.
Proof. by rewrite filter_In, not_tracked_true. Qed.

Lemma In_found lower q loc s job :
  In job (List.filter (matches lower q loc s) (_fake_jobs s))
  ↔ In job (_fake_jobs s) ∧ not_tracked s job = true ∧ matches_text lower q loc job = true.
Proof. by rewrite filter_In, matches_split, andb_true_iff. Qed.

Lemma filter_length_le {A : Type} (f : A → bool) (l : list A) :
  (length (List.filter f l) ≤ length l)%nat.
Proof. induction l as [|x l IH]; simpl; [lia|]. destruct (f x); simpl; lia. Qed.

(** ** Listing *)

(** C1, as stated, fails: with the default catalog, nothing saved or hidden
    and limit 1, the offer [job-2] is a catalog entry whose id is a key of
    neither dictionary, and it is not in the result. *)
Lemma list_offers_iff_fails :
  ∃ res s', list_offers 0 1 initial_store = Return res s' ∧
    ¬ (∀ job, In job (_fake_jobs s') →
         (In job res ↔
          _saved_jobs s' !! id job = None ∧ _hidden_jobs s' !! id job = None)).
Proof.
  exists [fake_job 1], initial_store. split; [by vm_compute|].
  intros H. specialize (H (fake_job 2)).
  destruct H as [_ H]; [vm_compute; tauto|].
  destruct H as [H|[]]; [by vm_compute|]. vm_compute in H. discriminate H.
Qed.

(** C1, amended: for a limit that is not negative, [list_offers] leaves the
    store with both dictionaries reduced to their entries that are not
    older than the cutoff, and returns the first [limit] entries, in catalog
    order, of the catalog entries whose id is a key of neither reduced
    dictionary: at most [limit] of them, each of them such an entry, and all
    such entries when there are no more than [limit]. *)
Theorem list_offers_first_visible now limit s :
  0 ≤ limit →
  let cutoff := now - timedelta_days 90 in
  let s' := purged cutoff s in
  let visible := List.filter (not_tracked s') (_fake_jobs s) in
  ∃ res,
    list_offers now limit s = Return res s'
    ∧ (∀ d k t, get_dict d s' !! k = Some t ↔ get_dict d s !! k = Some t ∧ cutoff ≤ t)
    ∧ res = firstn (Z.to_nat limit) visible
    ∧ Z.of_nat (length res) ≤ limit
    ∧ (∀ job, In job visible ↔
         In job (_fake_jobs s) ∧
         _saved_jobs s' !! id job = None ∧ _hidden_jobs s' !! id job = None)
    ∧ (∀ job, In job res → In job visible)
    ∧ (Z.of_nat (length visible) ≤ limit → res = visible).
Proof.
  intros Hlimit cutoff s' visible.
  exists (firstn (Z.to_nat limit) visible).
  split; [|split; [|split; [|split; [|split; [|split]]]]].
  - rewrite list_offers_run. cbv zeta. fold cutoff. fold s'.
    by rewrite slice_to_nonneg.
  - intros d k t. apply lookup_purged.
  - reflexivity.
  - rewrite length_firstn. lia.
  - intros job. apply (In_visible s' job).
  - intros job Hjob. rewrite <- (firstn_skipn (Z.to_nat limit) visible).
    apply in_or_app. by left.
  - intros Hlen. apply firstn_all2. lia.
Qed.

Lemma list_offers_first_visible_witness :
  0 ≤ 3 ∧
  ∃ res, list_offers (timedelta_days 100) 3 store_saved_then_hidden
         = Return res (purged (timedelta_days 100 - timedelta_days 90) store_saved_then_hidden)
       ∧ res = [fake_job 2; fake_job 3; fake_job 4].
Proof.
  split; [lia|].
  destruct (list_offers_first_visible (timedelta_days 100) 3 store_saved_then_hidden
              ltac:(lia)) as (res & Hrun & _ & Hres & _).
  exists res. split; [exact Hrun|]. rewrite Hres. vm_compute. reflexivity.
Defined.

(** The slice with bound 0 is empty. *)
Lemma list_offers_limit_zero now s :
  list_offers now 0 s = Return [] (purged (now - timedelta_days 90) s).
Proof. by rewrite list_offers_run. Qed.

(** A bound that is at least the number of visible entries returns them
    all. *)
Lemma list_offers_limit_large now limit s :
  let s' := purged (now - timedelta_days 90) s in
  Z.of_nat (length (List.filter (not_tracked s') (_fake_jobs s))) ≤ limit →
  list_offers now limit s = Return (List.filter (not_tracked s') (_fake_jobs s)) s'.
Proof.
  intros s' Hlen. rewrite list_offers_run. cbv zeta. fold s'.
  by rewrite slice_to_all.
Qed.

(** C4: the slice [available[:limit]] with a negative bound drops entries
    from the end instead of returning nothing: with the default catalog and
    nothing saved or hidden, [list_offers(-1)] returns the first 19 offers. *)
Theorem list_offers_negative_limit now :
  list_offers now (-1) initial_store = Return (map fake_job (seq 1 19)) initial_store
  ∧ map fake_job (seq 1 19) ≠ [].
Proof.
  split; [|discriminate].
  rewrite list_offers_run, purged_initial_store. by vm_compute.
Qed.

(** ** Searching *)

(** What [search_offers] does for a limit that is not negative: the store is
    left as by [list_offers], and the result is the first [limit] entries, in
    catalog order, of the catalog entries that are in neither reduced
    dictionary and whose text passes the two filters. *)
Lemma search_offers_nonneg_limit lower q loc radius pensum now limit s :
  0 ≤ limit →
  let s' := purged (now - timedelta_days 90) s in
  let filtered := List.filter (matches lower q loc s') (_fake_jobs s) in
  search_offers lower q loc radius pensum now limit s
  = Return (firstn (Z.to_nat limit) filtered) s'
  ∧ ∀ job, In job filtered ↔
      In job (_fake_jobs s)
      ∧ (_saved_jobs s' !! id job = None ∧ _hidden_jobs s' !! id job = None)
      ∧ (q ≠ "" →
         str_in (lower q) (lower (title job) +:+ " " +:+ lower (description job)) = true)
      ∧ (loc ≠ "" → str_in (lower loc) (lower (location job)) = true).
Proof.
  intros Hlimit s' filtered. split.
  - rewrite search_offers_run. cbv zeta. fold s'. by rewrite slice_to_nonneg.
  - intros job. unfold filtered.
    pose proof (In_found lower q loc s' job) as Hf.
    change (_fake_jobs s') with (_fake_jobs s) in Hf. rewrite Hf, not_tracked_true.
    unfold matches_text. rewrite andb_true_iff, !negb_true_iff, !andb_false_iff,
      !negb_false_iff.
    split.
    + intros (Hin & Hfree & Hq & Hloc). repeat split; try tauto.
      * intros Hne. destruct Hq as [Hq|Hq]; [|done]. by destruct q.
      * intros Hne. destruct Hloc as [Hl|Hl]; [|done]. by destruct loc.
    + intros (Hin & Hfree & Hq & Hloc). repeat split; try tauto.
      * destruct q; [by left|right]. by apply Hq.
      * destruct loc; [by left|right]. by apply Hloc.
Qed.

(** C2: the slice [filtered[:limit]] with a negative bound does not truncate
    to nothing: with the default catalog and nothing saved or hidden, a
    search for "Sample Job" in "zurich" with limit -1 returns 19 offers. *)
Theorem search_offers_negative_limit now :
  search_offers lower_ascii "Sample Job" "zurich" 0 "" now (-1) initial_store
  = Return (map fake_job (seq 1 19)) initial_store
  ∧ length (map fake_job (seq 1 19)) = 19%nat.
Proof.
  split; [|reflexivity].
  rewrite search_offers_run, purged_initial_store. by vm_compute.
Qed.

(** C8: [radius] and [pensum] are never read. *)
Theorem search_offers_ignores_radius_pensum lower q loc now limit s
    (radius radius' : Z) (pensum pensum' : string) :
  search_offers lower q loc radius pensum now limit s
  = search_offers lower q loc radius' pensum' now limit s.
Proof. reflexivity. Qed.

(** C9: on the default catalog with nothing saved or hidden, the query
    "Sample Job 3" finds [job-3] alone and the query "nonexistent-zzz" finds
    nothing (location empty, limit 10, at any time). *)
Theorem search_offers_default_catalog now :
  search_offers lower_ascii "Sample Job 3" "" 0 "" now 10 initial_store
  = Return [fake_job 3] initial_store
  ∧ id (fake_job 3) = "job-3"
  ∧ map title (_fake_jobs initial_store)
    = map (λ i, "Sample Job " +:+ format_int i) (seq 1 20)
  ∧ search_offers lower_ascii "nonexistent-zzz" "" 0 "" now 10 initial_store
    = Return [] initial_store.
Proof.
  rewrite !search_offers_run, purged_initial_store. by vm_compute.
Qed.

(** C10: with both filters empty, [search_offers] is [list_offers]: the same
    result and the same store, for every limit, time and store. *)
Theorem search_offers_empty_filters lower radius pensum now limit s :
  search_offers lower "" "" radius pensum now limit s = list_offers now limit s.
Proof.
  rewrite search_offers_run, list_offers_run. cbv zeta.
  f_equal. f_equal. apply List.filter_ext. intros job. apply matches_empty_filters.
Qed.

(** ** Expiry *)

(** C3, as stated, fails: [job-1] was saved at time 0 and hidden at day 100.
    A listing at day 100 finds the saved entry strictly older than 90 days
    and removes it, but the offer stays out of the result, since the hidden
    entry is still in force. *)
Lemma expired_entry_not_visible_again :
  let now := timedelta_days 100 in
  _saved_jobs store_saved_then_hidden !! "job-1" = Some 0
  ∧ 0 < now - timedelta_days 90
  ∧ In (fake_job 1) (_fake_jobs store_saved_then_hidden)
  ∧ id (fake_job 1) = "job-1"
  ∧ ∃ res s', list_offers now 1000 store_saved_then_hidden = Return res s'
      ∧ _saved_jobs s' !! "job-1" = None
      ∧ ¬ In (fake_job 1) res.
Proof.
  cbv zeta. split; [by vm_compute|]. split; [by vm_compute|].
  split; [vm_compute; tauto|]. split; [by vm_compute|].
  exists (map fake_job (seq 2 19)),
    {| _fake_jobs := map fake_job (seq 1 20); _saved_jobs := ∅;
       _hidden_jobs := {[ "job-1" := timedelta_days 100 ]} |}.
  split; [by vm_compute|]. split; [by vm_compute|].
  intros Hin. vm_compute in Hin.
  repeat (destruct Hin as [Hin|Hin]; [discriminate Hin|]). exact Hin.
Qed.

Lemma lookup_purged_None cutoff d s k :
  get_dict d (purged cutoff s) !! k = None ↔ ∀ t, get_dict d s !! k = Some t → t < cutoff.
Proof. destruct d; simpl; apply lookup_unexpired_None. Qed.

Lemma not_tracked_dicts s job :
  not_tracked s job = true ↔ ∀ d, get_dict d s !! id job = None.
Proof.
  rewrite not_tracked_true. split.
  - intros [Hs Hh] []; done.
  - intros H. split; [apply (H SavedJobs)|apply (H HiddenJobs)].
Qed.

(** C3, amended: a read at time [now] (a listing or a search) purges an
    entry whose timestamp is strictly older than [now - 90 days]; from then
    on the id is excluded only if the other dictionary holds an entry for it
    that has not expired: otherwise every catalog offer with this id passes
    the exclusion test, and it is in the listing, and in the search result
    when its text matches, as soon as the limit is at least the catalog
    size.  An entry whose timestamp is exactly [now - 90 days] is retained
    and no offer with its id is in the result of either read. *)
Theorem expiry_is_strict lower d k t now s q loc radius pensum limit :
  get_dict d s !! k = Some t →
  let cutoff := now - timedelta_days 90 in
  let s' := purged cutoff s in
  ∃ listed found,
    list_offers now limit s = Return listed s'
    ∧ search_offers lower q loc radius pensum now limit s = Return found s'
    ∧ (t < cutoff →
         get_dict d s' !! k = None
         ∧ ((∀ t', get_dict (other_dict d) s !! k = Some t' → t' < cutoff) →
            ∀ job, In job (_fake_jobs s) → id job = k →
              not_tracked s' job = true
              ∧ (Z.of_nat (length (_fake_jobs s)) ≤ limit →
                 In job listed
                 ∧ (matches_text lower q loc job = true → In job found))))
    ∧ (t = cutoff →
         get_dict d s' !! k = Some t
         ∧ ∀ job, id job = k → ¬ In job listed ∧ ¬ In job found).
Proof.
  intros Hent cutoff s'.
  exists (slice_to limit (List.filter (not_tracked s') (_fake_jobs s'))),
         (slice_to limit (List.filter (matches lower q loc s') (_fake_jobs s'))).
  split; [apply list_offers_run|]. split; [apply search_offers_run|]. split.
  - intros Hlt.
    assert (Hgone : get_dict d s' !! k = None).
    { apply lookup_purged_None. intros t' Ht'. congruence. }
    split; [exact Hgone|]. intros Hother job Hin <-.
    assert (Hfree : not_tracked s' job = true).
    { assert (Hgone' : get_dict (other_dict d) s' !! id job = None)
        by (by apply lookup_purged_None).
      apply not_tracked_dicts. intros d'. destruct d, d'; assumption. }
    split; [exact Hfree|]. intros Hlen. split.
    + rewrite slice_to_all.
      * apply filter_In. by split.
      * pose proof (filter_length_le (not_tracked s') (_fake_jobs s')).
        change (_fake_jobs s') with (_fake_jobs s) in *. lia.
    + intros Htext. rewrite slice_to_all.
      * apply filter_In. split; [done|]. by rewrite matches_split, Hfree, Htext.
      * pose proof (filter_length_le (matches lower q loc s') (_fake_jobs s')).
        change (_fake_jobs s') with (_fake_jobs s) in *. lia.
  - intros Heq.
    assert (Hkept : get_dict d s' !! k = Some t).
    { apply lookup_purged. split; [done|lia]. }
    split; [exact Hkept|]. intros job <-.
    assert (Htracked : not_tracked s' job = false).
    { destruct (not_tracked s' job) eqn:Hnt; [|done].
      rewrite (proj1 (not_tracked_dicts s' job) Hnt d) in Hkept. discriminate. }
    split; intros Hin%In_slice_to; apply filter_In in Hin as [_ Hm].
    + congruence.
    + rewrite matches_split, Htracked in Hm. discriminate.
Qed.

Lemma expiry_is_strict_witness :
  _saved_jobs store_saved_once !! "job-1" = Some 0
  ∧ ∃ listed found s',
      list_offers (timedelta_days 90) 20 store_saved_once = Return listed s'
      ∧ search_offers lower_ascii "" "" 0 "" (timedelta_days 90) 20 store_saved_once
        = Return found s'
      ∧ _saved_jobs s' !! "job-1" = Some 0
      ∧ ¬ In (fake_job 1) listed ∧ ¬ In (fake_job 1) found.
Proof.
  split; [reflexivity|].
  destruct (expiry_is_strict lower_ascii SavedJobs "job-1" 0 (timedelta_days 90)
              store_saved_once "" "" 0 "" 20 eq_refl)
    as (listed & found & Hl & Hf & _ & Hkeep).
  destruct (Hkeep eq_refl) as [Hsaved Hout].
  exists listed, found, (purged (timedelta_days 90 - timedelta_days 90) store_saved_once).
  split; [exact Hl|]. split; [exact Hf|]. split; [exact Hsaved|].
  exact (Hout (fake_job 1) eq_refl).
Defined.

(** ** Saving and hiding *)

Lemma tracked_not_listed lower d k t q loc limit s job :
  get_dict d s !! k = Some t → id job = k →
  ¬ In job (slice_to limit (List.filter (not_tracked s) (_fake_jobs s)))
  ∧ ¬ In job (slice_to limit (List.filter (matches lower q loc s) (_fake_jobs s))).
Proof.
  intros Hk <-.
  assert (Htracked : not_tracked s job = false).
  { destruct (not_tracked s job) eqn:Hnt; [|done].
    rewrite (proj1 (not_tracked_dicts s job) Hnt d) in Hk. discriminate. }
  split; intros Hin%In_slice_to; apply filter_In in Hin as [_ Hm].
  - congruence.
  - rewrite matches_split, Htracked in Hm. discriminate.
Qed.

(** Marking an id in dictionary [d] at [t1] and again at [t2], then reading
    while the second mark has not expired. *)
Lemma mark_twice lower d k t1 t2 s now limit q loc radius pensum :
  now - timedelta_days 90 ≤ t2 →
  let s1 := set_dict d (<[k := t1]> (get_dict d s)) s in
  let s2 := set_dict d (<[k := t2]> (get_dict d s1)) s1 in
  s2 = set_dict d (<[k := t2]> (get_dict d s)) s
  ∧ get_dict d s2 !! k = Some t2
  ∧ (∀ j, j ≠ k → get_dict d s2 !! j = get_dict d s1 !! j)
  ∧ size (get_dict d s2) = size (get_dict d s1)
  ∧ get_dict (other_dict d) s2 = get_dict (other_dict d) s1
  ∧ _fake_jobs s2 = _fake_jobs s1
  ∧ ∃ listed found s3,
      list_offers now limit s2 = Return listed s3
      ∧ search_offers lower q loc radius pensum now limit s2 = Return found s3
      ∧ ∀ job, id job = k → ¬ In job listed ∧ ¬ In job found.
Proof.
  intros Hlive s1 s2.
  assert (E1 : get_dict d s1 = <[k:=t1]> (get_dict d s)) by apply get_set_dict.
  assert (E2 : get_dict d s2 = <[k:=t2]> (get_dict d s1)) by apply get_set_dict.
  assert (Es2 : s2 = set_dict d (<[k:=t2]> (get_dict d s)) s).
  { unfold s2. rewrite E1. unfold s1. by rewrite set_set_dict, insert_insert_eq. }
  assert (Hk : get_dict d s2 !! k = Some t2) by (rewrite E2; apply lookup_insert_eq).
  split; [exact Es2|]. split; [exact Hk|].
  split; [intros j Hj; rewrite E2; by apply lookup_insert_ne|].
  split.
  { rewrite E2. apply map_size_insert_Some. rewrite E1, lookup_insert_eq. eauto. }
  split; [apply get_set_other|]. split; [apply fake_jobs_set_dict|].
  rewrite list_offers_run, search_offers_run. cbv zeta.
  eexists _, _, _. split; [reflexivity|]. split; [reflexivity|].
  intros job Hjob. apply (tracked_not_listed lower d k t2); [|done].
  apply lookup_purged. by split.
Qed.

(** Both halves of the statement below are [mark_twice] read through the
    closed form [run] of the handler. *)
Local Ltac from_mark_twice run H :=
  destruct H
    as (Es2 & Hk & _ & Hsize & Hother & Hjobs & listed & found & s3 & Hl & Hf & Hout);
  eexists _, _, listed, found, s3;
  split; [apply run|]; split; [apply run|];
  split; [rewrite run; f_equal; symmetry; exact Es2|];
  split; [reflexivity|]; split; [exact Hk|]; split; [exact Hsize|];
  split; [exact Hother|]; split; [exact Hjobs|]; split; [exact Hl|];
  split; [exact Hf|exact Hout].

(** C5: a second [save_offer] for the same id succeeds, leaves the store as
    one call at the later time would (the timestamp of the id is the one of
    the latest call, the dictionary has as many entries as before, the other
    dictionary and the catalog are as they were), and a read made while that
    timestamp has not expired returns no offer with this id.  The same holds
    of [hide_offer] and the hidden dictionary. *)
Theorem save_hide_idempotent lower payload t1 t2 s now limit q loc radius pensum :
  now - timedelta_days 90 ≤ t2 →
  (∃ s1 s2 listed found s3,
     save_offer t1 payload s = Return {| message := "Job saved successfully" |} s1
     ∧ save_offer t2 payload s1 = Return {| message := "Job saved successfully" |} s2
     ∧ save_offer t2 payload s = Return {| message := "Job saved successfully" |} s2
     ∧ _saved_jobs s2 = <[id payload := t2]> (_saved_jobs s1)
     ∧ _saved_jobs s2 !! id payload = Some t2
     ∧ size (_saved_jobs s2) = size (_saved_jobs s1)
     ∧ _hidden_jobs s2 = _hidden_jobs s1
     ∧ _fake_jobs s2 = _fake_jobs s1
     ∧ list_offers now limit s2 = Return listed s3
     ∧ search_offers lower q loc radius pensum now limit s2 = Return found s3
     ∧ ∀ job, id job = id payload → ¬ In job listed ∧ ¬ In job found)
  ∧ (∃ s1 s2 listed found s3,
     hide_offer t1 payload s = Return {| message := "Job hidden successfully" |} s1
     ∧ hide_offer t2 payload s1 = Return {| message := "Job hidden successfully" |} s2
     ∧ hide_offer t2 payload s = Return {| message := "Job hidden successfully" |} s2
     ∧ _hidden_jobs s2 = <[id payload := t2]> (_hidden_jobs s1)
     ∧ _hidden_jobs s2 !! id payload = Some t2
     ∧ size (_hidden_jobs s2) = size (_hidden_jobs s1)
     ∧ _saved_jobs s2 = _saved_jobs s1
     ∧ _fake_jobs s2 = _fake_jobs s1
     ∧ list_offers now limit s2 = Return listed s3
     ∧ search_offers lower q loc radius pensum now limit s2 = Return found s3
     ∧ ∀ job, id job = id payload → ¬ In job listed ∧ ¬ In job found).
Proof.
  intros Hlive. split.
  - from_mark_twice save_offer_run
      (mark_twice lower SavedJobs (id payload) t1 t2 s now limit q loc radius pensum Hlive).
  - from_mark_twice hide_offer_run
      (mark_twice lower HiddenJobs (id payload) t1 t2 s now limit q loc radius pensum Hlive).
Qed.

Lemma save_hide_idempotent_witness :
  timedelta_days 95 - timedelta_days 90 ≤ timedelta_days 10
  ∧ ∃ s2 listed s3,
      save_offer (timedelta_days 10) (fake_job 2)
        (set_dict SavedJobs (<[id (fake_job 2) := timedelta_days 1]> ∅) initial_store)
      = Return {| message := "Job saved successfully" |} s2
      ∧ _saved_jobs s2 !! "job-2" = Some (timedelta_days 10)
      ∧ size (_saved_jobs s2) = 1%nat
      ∧ list_offers (timedelta_days 95) 20 s2 = Return listed s3
      ∧ ¬ In (fake_job 2) listed.
Proof.
  assert (Hlive : timedelta_days 95 - timedelta_days 90 ≤ timedelta_days 10)
    by (vm_compute; discriminate).
  split; [exact Hlive|].
  destruct (save_hide_idempotent lower_ascii (fake_job 2) (timedelta_days 1)
              (timedelta_days 10) initial_store (timedelta_days 95) 20 "" "" 0 "" Hlive)
    as [(s1 & s2 & listed & found & s3 & H1 & H2 & _ & _ & Hk & Hsize & _ & _ & Hl & _ & Hout) _].
  rewrite save_offer_run in H1. injection H1 as <-.
  exists s2, listed, s3.
  split; [exact H2|]. split; [exact Hk|]. split; [rewrite Hsize; reflexivity|].
  split; [exact Hl|]. exact (proj1 (Hout (fake_job 2) eq_refl)).
Defined.

(** ** Totality and frame *)

(** C6: the four handlers return in every store, at every time and for every
    argument: no [KeyError] (the only exception of the embedding, from
    [del]) is raised.  The filters may be empty, the limit is any integer,
    and the payload of [save_offer] and [hide_offer] is any offer, in the
    catalog or not: its id is recorded without a look at the catalog. *)
Theorem handlers_never_raise lower now s :
  (∀ limit, ∃ res s', list_offers now limit s = Return res s')
  ∧ (∀ q loc radius pensum limit,
       ∃ res s', search_offers lower q loc radius pensum now limit s = Return res s')
  ∧ (∀ limit, ∃ res s', search_offers lower "" "" 0 "" now limit s = Return res s')
  ∧ (∀ payload, ∃ s',
       save_offer now payload s = Return {| message := "Job saved successfully" |} s'
       ∧ _saved_jobs s' !! id payload = Some now)
  ∧ (∀ payload, ∃ s',
       hide_offer now payload s = Return {| message := "Job hidden successfully" |} s'
       ∧ _hidden_jobs s' !! id payload = Some now).
Proof.
  split; [|split; [|split; [|split]]].
  - intros limit. rewrite list_offers_run. eauto.
  - intros q loc radius pensum limit. rewrite search_offers_run. eauto.
  - intros limit. rewrite search_offers_run. eauto.
  - intros payload. rewrite save_offer_run. eexists. split; [reflexivity|].
    apply lookup_insert_eq.
  - intros payload. rewrite hide_offer_run. eexists. split; [reflexivity|].
    apply lookup_insert_eq.
Qed.

(** C7: every handler leaves the catalog as it was.  [save_offer] sets the
    entry of the payload's id in the saved dictionary and changes no other
    entry of it and nothing of the hidden dictionary; [hide_offer] does the
    same with the two dictionaries exchanged.  After saving and then hiding
    an id, both dictionaries hold it. *)
Theorem handlers_frame lower now s :
  (∀ limit, ∃ res s', list_offers now limit s = Return res s'
                      ∧ _fake_jobs s' = _fake_jobs s)
  ∧ (∀ q loc radius pensum limit, ∃ res s',
       search_offers lower q loc radius pensum now limit s = Return res s'
       ∧ _fake_jobs s' = _fake_jobs s)
  ∧ (∀ payload, ∃ r s',
       save_offer now payload s = Return r s'
       ∧ _fake_jobs s' = _fake_jobs s
       ∧ _hidden_jobs s' = _hidden_jobs s
       ∧ _saved_jobs s' = <[id payload := now]> (_saved_jobs s)
       ∧ ∀ k, k ≠ id payload → _saved_jobs s' !! k = _saved_jobs s !! k)
  ∧ (∀ payload, ∃ r s',
       hide_offer now payload s = Return r s'
       ∧ _fake_jobs s' = _fake_jobs s
       ∧ _saved_jobs s' = _saved_jobs s
       ∧ _hidden_jobs s' = <[id payload := now]> (_hidden_jobs s)
       ∧ ∀ k, k ≠ id payload → _hidden_jobs s' !! k = _hidden_jobs s !! k)
  ∧ (∀ payload later, ∃ r1 s1 r2 s2,
       save_offer now payload s = Return r1 s1
       ∧ hide_offer later payload s1 = Return r2 s2
       ∧ _fake_jobs s2 = _fake_jobs s
       ∧ _saved_jobs s2 !! id payload = Some now
       ∧ _hidden_jobs s2 !! id payload = Some later).
Proof.
  split; [|split; [|split; [|split]]].
  - intros limit. rewrite list_offers_run. eauto.
  - intros q loc radius pensum limit. rewrite search_offers_run. eauto.
  - intros payload. rewrite save_offer_run. eexists _, _. split; [reflexivity|].
    simpl. repeat split. intros k Hk. by apply lookup_insert_ne.
  - intros payload. rewrite hide_offer_run. eexists _, _. split; [reflexivity|].
    simpl. repeat split. intros k Hk. by apply lookup_insert_ne.
  - intros payload later. rewrite save_offer_run. eexists _, _, _, _.
    split; [reflexivity|]. rewrite hide_offer_run. split; [reflexivity|].
    simpl. repeat split; apply lookup_insert_eq.
Qed.

(** ** Reads after reads *)

Lemma unexpired_unexpired c1 c2 (m : gmap string Z) :
  c1 ≤ c2 → unexpired c2 (unexpired c1 m) = unexpired c2 m.
Proof.
  intros Hc. apply map_eq. intros k. apply option_eq. intros t.
  rewrite !lookup_unexpired. intuition lia.
Qed.

Lemma purged_purged c1 c2 s : c1 ≤ c2 → purged c2 (purged c1 s) = purged c2 s.
Proof. intros Hc. unfold purged. simpl. by rewrite !unexpired_unexpired. Qed.

Lemma unexpired_subseteq cutoff (m : gmap string Z) : unexpired cutoff m ⊆ m.
Proof. apply map_filter_subseteq. Qed.

(** A read leaves nothing for a later read to undo: after a listing or a
    search at [now1], a read at a time [now2] that is not earlier returns
    what it would have returned, and leaves the store it would have left,
    without the first read.  A second read at the same time leaves the store
    as the first one left it.  The first read only removes entries. *)
Theorem reads_compose lower now1 now2 limit1 limit2 q1 loc1 q loc radius pensum s :
  now1 ≤ now2 →
  ∃ listed found s1,
    list_offers now1 limit1 s = Return listed s1
    ∧ search_offers lower q1 loc1 radius pensum now1 limit1 s = Return found s1
    ∧ list_offers now2 limit2 s1 = list_offers now2 limit2 s
    ∧ search_offers lower q loc radius pensum now2 limit2 s1
      = search_offers lower q loc radius pensum now2 limit2 s
    ∧ (∃ again, list_offers now1 limit2 s1 = Return again s1)
    ∧ _saved_jobs s1 ⊆ _saved_jobs s
    ∧ _hidden_jobs s1 ⊆ _hidden_jobs s.
Proof.
  intros Hnow. eexists _, _, _.
  split; [apply list_offers_run|]. split; [apply search_offers_run|].
  assert (Hc : now1 - timedelta_days 90 ≤ now2 - timedelta_days 90) by lia.
  split; [|split; [|split; [|split]]].
  - rewrite !list_offers_run. cbv zeta. by rewrite purged_purged.
  - rewrite !search_offers_run. cbv zeta. by rewrite purged_purged.
  - rewrite list_offers_run. cbv zeta. rewrite purged_purged by lia. eauto.
  - apply unexpired_subseteq.
  - apply unexpired_subseteq.
Qed.

Lemma reads_compose_witness :
  timedelta_days 95 ≤ timedelta_days 101
  ∧ ∃ listed s1,
      list_offers (timedelta_days 95) 5 store_saved_then_hidden = Return listed s1
      ∧ list_offers (timedelta_days 101) 20 s1
        = list_offers (timedelta_days 101) 20 store_saved_then_hidden.
Proof.
  assert (Hnow : timedelta_days 95 ≤ timedelta_days 101) by (vm_compute; discriminate).
  split; [exact Hnow|].
  destruct (reads_compose lower_ascii _ _ 5 20 "" "" "" "" 0 "" store_saved_then_hidden Hnow)
    as (listed & _ & s1 & Hl & _ & Hsame & _).
  exists listed, s1. split; [exact Hl|exact Hsame].
Defined.

(** ** The length of a result, for every limit *)

Lemma slice_to_length {A : Type} limit (xs : list A) :
  Z.of_nat (length (slice_to limit xs))
  = if 0 <=? limit then Z.min limit (Z.of_nat (length xs))
    else Z.max 0 (Z.of_nat (length xs) + limit).
Proof.
  unfold slice_to. destruct (0 <=? limit) eqn:Hl; rewrite length_firstn.
  - apply Z.leb_le in Hl. lia.
  - apply Z.leb_gt in Hl. lia.
Qed.

Lemma slice_to_prefix {A : Type} limit (xs : list A) :
  slice_to limit xs = firstn (length (slice_to limit xs)) xs.
Proof.
  destruct (slice_to_firstn limit xs) as [n ->].
  rewrite length_firstn. destruct (Nat.le_ge_cases n (length xs)) as [H|H].
  - by rewrite Nat.min_l.
  - rewrite Nat.min_r by done. by rewrite !firstn_all2 by lia.
Qed.

(** The result of a read is an initial segment of the entries that pass
    its filter, and its length is given by the limit as follows: a limit
    that is not negative keeps that many entries (all, if there are fewer),
    and a negative limit [-k] keeps all but the last [k] (none, if there are
    no more than [k]). *)
Theorem read_result_length lower q loc radius pensum now limit s :
  let s' := purged (now - timedelta_days 90) s in
  let visible := List.filter (not_tracked s') (_fake_jobs s) in
  let filtered := List.filter (matches lower q loc s') (_fake_jobs s) in
  let kept (n : nat) : Z :=
    if 0 <=? limit then Z.min limit (Z.of_nat n) else Z.max 0 (Z.of_nat n + limit) in
  ∃ listed found,
    list_offers now limit s = Return listed s'
    ∧ search_offers lower q loc radius pensum now limit s = Return found s'
    ∧ listed = firstn (length listed) visible
    ∧ Z.of_nat (length listed) = kept (length visible)
    ∧ found = firstn (length found) filtered
    ∧ Z.of_nat (length found) = kept (length filtered).
Proof.
  intros s' visible filtered kept. eexists _, _.
  split; [apply list_offers_run|]. split; [apply search_offers_run|].
  cbv zeta. fold s'.
  split; [apply slice_to_prefix|]. split; [apply slice_to_length|].
  split; [apply slice_to_prefix|apply slice_to_length].
Qed.

(** ** Reads after a save or a hide *)

Lemma filter_filter_andb {A : Type} (f g : A → bool) (l : list A) :
  List.filter f (List.filter g l) = List.filter (λ x, g x && f x) l.
Proof.
  induction l as [|x l IH]; simpl; [done|].
  destruct (g x); simpl; [|done]. destruct (f x); by rewrite IH.
Qed.

Lemma purged_mark_live cutoff d k t s :
  cutoff ≤ t →
  purged cutoff (set_dict d (<[k := t]> (get_dict d s)) s)
  = set_dict d (<[k := t]> (get_dict d (purged cutoff s))) (purged cutoff s).
Proof.
  intros Ht. destruct d; unfold purged, unexpired; simpl; f_equal;
    by apply map_filter_insert_True.
Qed.

Lemma not_tracked_mark d k t s job :
  not_tracked (set_dict d (<[k := t]> (get_dict d s)) s) job
  = negb (String.eqb (id job) k) && not_tracked s job.
Proof.
  unfold not_tracked, dict_mem.
  destruct (String.eqb_spec (id job) k) as [->|Hne]; destruct d; simpl;
    rewrite ?lookup_insert_eq, ?andb_false_r; try done;
    by rewrite lookup_insert_ne.
Qed.

Lemma lookup_purged_mark_ne cutoff d d' k t s j :
  j ≠ k →
  get_dict d' (purged cutoff (set_dict d (<[k := t]> (get_dict d s)) s)) !! j
  = get_dict d' (purged cutoff s) !! j.
Proof.
  intros Hne. apply option_eq. intros t'. rewrite !lookup_purged.
  destruct d, d'; simpl; by rewrite ?lookup_insert_ne.
Qed.

(** A save or a hide in dictionary [d] at [t], read while it is in force
    with a limit that is at least the catalog size. *)
Lemma mark_removes_exactly lower d k t s now limit q loc :
  now - timedelta_days 90 ≤ t →
  Z.of_nat (length (_fake_jobs s)) ≤ limit →
  let s1 := set_dict d (<[k := t]> (get_dict d s)) s in
  let cutoff := now - timedelta_days 90 in
  let other := λ job, negb (String.eqb (id job) k) in
  slice_to limit (List.filter (not_tracked (purged cutoff s1)) (_fake_jobs (purged cutoff s1)))
  = List.filter other
      (slice_to limit (List.filter (not_tracked (purged cutoff s)) (_fake_jobs (purged cutoff s))))
  ∧ slice_to limit
      (List.filter (matches lower q loc (purged cutoff s1)) (_fake_jobs (purged cutoff s1)))
    = List.filter other
        (slice_to limit
           (List.filter (matches lower q loc (purged cutoff s)) (_fake_jobs (purged cutoff s)))).
Proof.
  intros Hlive Hlimit s1 cutoff other.
  assert (Hjobs : _fake_jobs (purged cutoff s1) = _fake_jobs s) by apply fake_jobs_set_dict.
  assert (Hjobs' : _fake_jobs (purged cutoff s) = _fake_jobs s) by done.
  rewrite Hjobs, Hjobs'.
  pose proof (filter_length_le (not_tracked (purged cutoff s1)) (_fake_jobs s)).
  pose proof (filter_length_le (not_tracked (purged cutoff s)) (_fake_jobs s)).
  pose proof (filter_length_le (matches lower q loc (purged cutoff s1)) (_fake_jobs s)).
  pose proof (filter_length_le (matches lower q loc (purged cutoff s)) (_fake_jobs s)).
  rewrite !slice_to_all by lia. rewrite !filter_filter_andb.
  unfold s1. rewrite purged_mark_live by done.
  split; apply List.filter_ext; intros job.
  - rewrite not_tracked_mark. apply andb_comm.
  - rewrite !matches_split, not_tracked_mark. unfold other.
    destruct (negb _), (not_tracked _ _), (matches_text _ _ _ _); done.
Qed.

(** After a save, a listing (or a search) made while the save is in force,
    with a limit that is at least the catalog size, returns what it would
    have returned before the save without the offers of the saved id; the
    other offers are returned as before, in the same order.  The same holds
    for a hide. *)
Theorem save_hide_remove_exactly lower payload t s now limit q loc radius pensum :
  now - timedelta_days 90 ≤ t →
  Z.of_nat (length (_fake_jobs s)) ≤ limit →
  let other := λ job, negb (String.eqb (id job) (id payload)) in
  ∃ listed found s0,
    list_offers now limit s = Return listed s0
    ∧ search_offers lower q loc radius pensum now limit s = Return found s0
    ∧ (∃ r s1 s2,
         save_offer t payload s = Return r s1
         ∧ list_offers now limit s1 = Return (List.filter other listed) s2
         ∧ search_offers lower q loc radius pensum now limit s1
           = Return (List.filter other found) s2)
    ∧ (∃ r s1 s2,
         hide_offer t payload s = Return r s1
         ∧ list_offers now limit s1 = Return (List.filter other listed) s2
         ∧ search_offers lower q loc radius pensum now limit s1
           = Return (List.filter other found) s2).
Proof.
  intros Hlive Hlimit other. eexists _, _, _.
  split; [apply list_offers_run|]. split; [apply search_offers_run|].
  split.
  - destruct (mark_removes_exactly lower SavedJobs (id payload) t s now limit q loc
                Hlive Hlimit) as [Hl Hf].
    eexists _, _, _. split; [apply save_offer_run|].
    rewrite list_offers_run, search_offers_run. cbv zeta.
    split; f_equal; [exact Hl|exact Hf].
  - destruct (mark_removes_exactly lower HiddenJobs (id payload) t s now limit q loc
                Hlive Hlimit) as [Hl Hf].
    eexists _, _, _. split; [apply hide_offer_run|].
    rewrite list_offers_run, search_offers_run. cbv zeta.
    split; f_equal; [exact Hl|exact Hf].
Qed.

Lemma save_hide_remove_exactly_witness :
  timedelta_days 30 - timedelta_days 90 ≤ timedelta_days 10
  ∧ Z.of_nat (length (_fake_jobs initial_store)) ≤ 20
  ∧ ∃ listed s0 r s1 s2,
      list_offers (timedelta_days 30) 20 initial_store = Return listed s0
      ∧ save_offer (timedelta_days 10) (fake_job 4) initial_store = Return r s1
      ∧ list_offers (timedelta_days 30) 20 s1
        = Return (List.filter (λ job, negb (String.eqb (id job) (id (fake_job 4)))) listed)
                 s2.
Proof.
  assert (Hlive : timedelta_days 30 - timedelta_days 90 ≤ timedelta_days 10)
    by (vm_compute; discriminate).
  assert (Hlimit : Z.of_nat (length (_fake_jobs initial_store)) ≤ 20)
    by (vm_compute; discriminate).
  split; [exact Hlive|]. split; [exact Hlimit|].
  destruct (save_hide_remove_exactly lower_ascii (fake_job 4) (timedelta_days 10)
              initial_store (timedelta_days 30) 20 "" "" 0 "" Hlive Hlimit)
    as (listed & found & s0 & Hl & _ & (r & s1 & s2 & Hsave & Hafter & _) & _).
  exists listed, s0, r, s1, s2.
  split; [exact Hl|]. split; [exact Hsave|exact Hafter].
Defined.

Lemma not_tracked_purged_mark_ne cutoff d k t s job :
  id job ≠ k →
  not_tracked (purged cutoff (set_dict d (<[k := t]> (get_dict d s)) s)) job
  = not_tracked (purged cutoff s) job.
Proof.
  intros Hne. unfold not_tracked, dict_mem.
  pose proof (lookup_purged_mark_ne cutoff d SavedJobs k t s (id job) Hne) as Hs.
  pose proof (lookup_purged_mark_ne cutoff d HiddenJobs k t s (id job) Hne) as Hh.
  cbn [get_dict] in Hs, Hh. by rewrite Hs, Hh.
Qed.

Lemma mark_unknown_id lower d k t s now limit q loc :
  (∀ job, In job (_fake_jobs s) → id job ≠ k) →
  let s1 := set_dict d (<[k := t]> (get_dict d s)) s in
  let cutoff := now - timedelta_days 90 in
  slice_to limit (List.filter (not_tracked (purged cutoff s1)) (_fake_jobs (purged cutoff s1)))
  = slice_to limit (List.filter (not_tracked (purged cutoff s)) (_fake_jobs (purged cutoff s)))
  ∧ slice_to limit
      (List.filter (matches lower q loc (purged cutoff s1)) (_fake_jobs (purged cutoff s1)))
    = slice_to limit
        (List.filter (matches lower q loc (purged cutoff s)) (_fake_jobs (purged cutoff s))).
Proof.
  intros Hunknown s1 cutoff.
  assert (Hjobs : _fake_jobs (purged cutoff s1) = _fake_jobs s) by apply fake_jobs_set_dict.
  assert (Hjobs' : _fake_jobs (purged cutoff s) = _fake_jobs s) by done.
  rewrite Hjobs, Hjobs'.
  split; f_equal; apply List.filter_ext_in; intros job Hin.
  - apply not_tracked_purged_mark_ne. by apply Hunknown.
  - rewrite !matches_split. f_equal. apply not_tracked_purged_mark_ne. by apply Hunknown.
Qed.

(** Saving or hiding an id that no catalog entry carries is accepted and
    recorded, and changes the result of no read: every listing and every
    search, at every time and for every limit, returns what it would have
    returned without it. *)
Theorem unknown_id_changes_no_result lower payload t s now limit q loc radius pensum :
  (∀ job, In job (_fake_jobs s) → id job ≠ id payload) →
  ∃ listed found s0,
    list_offers now limit s = Return listed s0
    ∧ search_offers lower q loc radius pensum now limit s = Return found s0
    ∧ (∃ r s1 s2,
         save_offer t payload s = Return r s1
         ∧ _saved_jobs s1 !! id payload = Some t
         ∧ list_offers now limit s1 = Return listed s2
         ∧ search_offers lower q loc radius pensum now limit s1 = Return found s2)
    ∧ (∃ r s1 s2,
         hide_offer t payload s = Return r s1
         ∧ _hidden_jobs s1 !! id payload = Some t
         ∧ list_offers now limit s1 = Return listed s2
         ∧ search_offers lower q loc radius pensum now limit s1 = Return found s2).
Proof.
  intros Hunknown. eexists _, _, _.
  split; [apply list_offers_run|]. split; [apply search_offers_run|].
  split.
  - destruct (mark_unknown_id lower SavedJobs (id payload) t s now limit q loc Hunknown)
      as [Hl Hf].
    eexists _, _, _. split; [apply save_offer_run|].
    split; [apply lookup_insert_eq|].
    rewrite list_offers_run, search_offers_run. cbv zeta.
    split; f_equal; [exact Hl|exact Hf].
  - destruct (mark_unknown_id lower HiddenJobs (id payload) t s now limit q loc Hunknown)
      as [Hl Hf].
    eexists _, _, _. split; [apply hide_offer_run|].
    split; [apply lookup_insert_eq|].
    rewrite list_offers_run, search_offers_run. cbv zeta.
    split; f_equal; [exact Hl|exact Hf].
Qed.

Lemma unknown_id_changes_no_result_witness :
  let payload := {| id := "nonexistent-id"; title := ""; company := ""; location := "";
                    description := ""; source := ""; url := "" |} in
  (∀ job, In job (_fake_jobs initial_store) → id job ≠ id payload)
  ∧ ∃ listed s0 r s1 s2,
      list_offers 0 7 initial_store = Return listed s0
      ∧ hide_offer 0 payload initial_store = Return r s1
      ∧ _hidden_jobs s1 !! "nonexistent-id" = Some 0
      ∧ list_offers 0 7 s1 = Return listed s2.
Proof.
  cbv zeta.
  assert (Hunknown : ∀ job, In job (_fake_jobs initial_store) → id job ≠ "nonexistent-id").
  { intros job Hin. vm_compute in Hin.
    repeat (destruct Hin as [<-|Hin]; [discriminate|]). destruct Hin. }
  split; [exact Hunknown|].
  destruct (unknown_id_changes_no_result lower_ascii
              {| id := "nonexistent-id"; title := ""; company := ""; location := "";
                 description := ""; source := ""; url := "" |}
              0 initial_store 0 7 "" "" 0 "" Hunknown)
    as (listed & _ & s0 & Hl & _ & _ & (r & s1 & s2 & Hhide & Hk & Hafter & _)).
  exists listed, s0, r, s1, s2. repeat split; assumption.
Defined.

(** ** The 90 days of an exclusion *)

Lemma mark_window cutoff d k t s job :
  id job = k →
  not_tracked (purged cutoff (set_dict d (<[k := t]> (get_dict d s)) s)) job = true
  ↔ t < cutoff ∧ ∀ t', get_dict (other_dict d) s !! k = Some t' → t' < cutoff.
Proof.
  intros <-. set (s1 := set_dict d _ s). rewrite not_tracked_dicts. split.
  - intros Hfree. split.
    + apply (proj1 (lookup_purged_None cutoff d s1 (id job)) (Hfree d)).
      unfold s1. rewrite get_set_dict. apply lookup_insert_eq.
    + intros t' Ht'.
      apply (proj1 (lookup_purged_None cutoff (other_dict d) s1 (id job))
                   (Hfree (other_dict d))).
      unfold s1. by rewrite get_set_other.
  - intros [Ht Hother] d'. apply lookup_purged_None. intros t' Ht'.
    assert (Hd : get_dict d s1 !! id job = Some t)
      by (unfold s1; rewrite get_set_dict; apply lookup_insert_eq).
    assert (Ho : get_dict (other_dict d) s1 = get_dict (other_dict d) s)
      by apply get_set_other.
    destruct d, d'; simpl in *; first [congruence | apply Hother; congruence].
Qed.

(** An offer saved at [t] is kept out of a listing at [now] exactly while
    [now - 90 days <= t]: with a limit that is at least the catalog size, a
    catalog offer with the saved id is listed if and only if the save is
    strictly older than 90 days and the hidden dictionary holds no entry for
    the id that is still in force.  The same holds for a hide, with the two
    dictionaries exchanged. *)
Theorem exclusion_window payload t s now limit job :
  In job (_fake_jobs s) →
  id job = id payload →
  Z.of_nat (length (_fake_jobs s)) ≤ limit →
  let cutoff := now - timedelta_days 90 in
  (∃ r s1 listed s2,
     save_offer t payload s = Return r s1
     ∧ list_offers now limit s1 = Return listed s2
     ∧ (In job listed ↔
        t < cutoff ∧ ∀ t', _hidden_jobs s !! id payload = Some t' → t' < cutoff))
  ∧ (∃ r s1 listed s2,
     hide_offer t payload s = Return r s1
     ∧ list_offers now limit s1 = Return listed s2
     ∧ (In job listed ↔
        t < cutoff ∧ ∀ t', _saved_jobs s !! id payload = Some t' → t' < cutoff)).
Proof.
  intros Hin Hid Hlimit cutoff.
  assert (Hall : ∀ d,
    let s1 := set_dict d (<[id payload := t]> (get_dict d s)) s in
    In job (slice_to limit (List.filter (not_tracked (purged cutoff s1))
                                        (_fake_jobs (purged cutoff s1))))
    ↔ t < cutoff ∧ ∀ t', get_dict (other_dict d) s !! id payload = Some t' → t' < cutoff).
  { intros d s1.
    assert (Hjobs : _fake_jobs (purged cutoff s1) = _fake_jobs s)
      by apply fake_jobs_set_dict.
    rewrite Hjobs.
    pose proof (filter_length_le (not_tracked (purged cutoff s1)) (_fake_jobs s)).
    rewrite slice_to_all by lia.
    rewrite filter_In, <- (mark_window cutoff d (id payload) t s job Hid). tauto. }
  split.
  - eexists _, _, _, _. split; [apply save_offer_run|].
    split; [apply list_offers_run|]. apply (Hall SavedJobs).
  - eexists _, _, _, _. split; [apply hide_offer_run|].
    split; [apply list_offers_run|]. apply (Hall HiddenJobs).
Qed.

Lemma exclusion_window_witness :
  In (fake_job 5) (_fake_jobs initial_store)
  ∧ Z.of_nat (length (_fake_jobs initial_store)) ≤ 20
  ∧ ∃ r s1 listed s2,
      save_offer 0 (fake_job 5) initial_store = Return r s1
      ∧ list_offers (timedelta_days 90) 20 s1 = Return listed s2
      ∧ ¬ In (fake_job 5) listed.
Proof.
  assert (Hin : In (fake_job 5) (_fake_jobs initial_store)) by (vm_compute; tauto).
  assert (Hlimit : Z.of_nat (length (_fake_jobs initial_store)) ≤ 20)
    by (vm_compute; discriminate).
  split; [exact Hin|]. split; [exact Hlimit|].
  destruct (exclusion_window (fake_job 5) 0 initial_store (timedelta_days 90) 20
              (fake_job 5) Hin eq_refl Hlimit)
    as [(r & s1 & listed & s2 & Hsave & Hlist & Hiff) _].
  exists r, s1, listed, s2. split; [exact Hsave|]. split; [exact Hlist|].
  intros Hlisted. apply Hiff in Hlisted as [Ht _]. vm_compute in Ht. discriminate Ht.
Defined.

(** ** Visibility over time *)

Lemma not_tracked_purged_mono c1 c2 s job :
  c1 ≤ c2 →
  not_tracked (purged c1 s) job = true → not_tracked (purged c2 s) job = true.
Proof.
  intros Hc. rewrite !not_tracked_dicts. intros Hfree d.
  apply lookup_purged_None. intros t Ht.
  pose proof (proj1 (lookup_purged_None c1 d s (id job)) (Hfree d) t Ht). lia.
Qed.

(** Without a save or a hide in between, time only brings offers back: an
    offer returned by a listing (or a search) at [now1], whatever its limit,
    is returned by the same read at any time [now2] that is not earlier,
    when the limit of the later read is at least the catalog size. *)
Theorem visibility_grows lower q loc radius pensum now1 now2 limit1 limit2 s :
  now1 ≤ now2 →
  Z.of_nat (length (_fake_jobs s)) ≤ limit2 →
  ∃ listed1 found1 s1 listed2 found2 s2,
    list_offers now1 limit1 s = Return listed1 s1
    ∧ search_offers lower q loc radius pensum now1 limit1 s = Return found1 s1
    ∧ list_offers now2 limit2 s = Return listed2 s2
    ∧ search_offers lower q loc radius pensum now2 limit2 s = Return found2 s2
    ∧ (∀ job, In job listed1 → In job listed2)
    ∧ (∀ job, In job found1 → In job found2).
Proof.
  intros Hnow Hlimit. eexists _, _, _, _, _, _.
  split; [apply list_offers_run|]. split; [apply search_offers_run|].
  split; [apply list_offers_run|]. split; [apply search_offers_run|].
  cbv zeta.
  set (c1 := now1 - timedelta_days 90). set (c2 := now2 - timedelta_days 90).
  assert (Hc : c1 ≤ c2) by (unfold c1, c2; lia).
  assert (Hj1 : _fake_jobs (purged c1 s) = _fake_jobs s) by done.
  assert (Hj2 : _fake_jobs (purged c2 s) = _fake_jobs s) by done.
  rewrite Hj1, Hj2.
  pose proof (filter_length_le (not_tracked (purged c2 s)) (_fake_jobs s)).
  pose proof (filter_length_le (matches lower q loc (purged c2 s)) (_fake_jobs s)).
  rewrite !(slice_to_all limit2) by lia.
  split; intros job Hin%In_slice_to; apply filter_In in Hin as [Hin Hm];
    apply filter_In; (split; [exact Hin|]).
  - by apply (not_tracked_purged_mono c1 c2).
  - rewrite matches_split in *. apply andb_true_iff in Hm as [Hfree Htext].
    by rewrite (not_tracked_purged_mono c1 c2 s job Hc Hfree), Htext.
Qed.

Lemma visibility_grows_witness :
  timedelta_days 95 ≤ timedelta_days 200
  ∧ Z.of_nat (length (_fake_jobs store_saved_then_hidden)) ≤ 20
  ∧ ∃ listed1 s1 listed2 s2,
      list_offers (timedelta_days 95) 3 store_saved_then_hidden = Return listed1 s1
      ∧ list_offers (timedelta_days 200) 20 store_saved_then_hidden = Return listed2 s2
      ∧ ∀ job, In job listed1 → In job listed2.
Proof.
  assert (Hnow : timedelta_days 95 ≤ timedelta_days 200) by (vm_compute; discriminate).
  assert (Hlimit : Z.of_nat (length (_fake_jobs store_saved_then_hidden)) ≤ 20)
    by (vm_compute; discriminate).
  split; [exact Hnow|]. split; [exact Hlimit|].
  destruct (visibility_grows lower_ascii "" "" 0 "" _ _ 3 20 store_saved_then_hidden
              Hnow Hlimit)
    as (listed1 & _ & s1 & listed2 & _ & s2 & Hl1 & _ & Hl2 & _ & Hsub & _).
  exists listed1, s1, listed2, s2. split; [exact Hl1|]. split; [exact Hl2|exact Hsub].
Defined.

(** ** Saves and hides in either order *)

(** A save and a hide can be made in either order, of the same id or not:
    the store they leave is the same.  Two saves, or two hides, of different
    ids can be exchanged as well. *)
Theorem save_hide_commute a b t1 t2 s :
  (∃ r1 r2 s1 s1' s2,
     save_offer t1 a s = Return r1 s1 ∧ hide_offer t2 b s1 = Return r2 s2
     ∧ hide_offer t2 b s = Return r2 s1' ∧ save_offer t1 a s1' = Return r1 s2)
  ∧ (id a ≠ id b →
     (∃ r s1 s1' s2,
        save_offer t1 a s = Return r s1 ∧ save_offer t2 b s1 = Return r s2
        ∧ save_offer t2 b s = Return r s1' ∧ save_offer t1 a s1' = Return r s2)
     ∧ (∃ r s1 s1' s2,
        hide_offer t1 a s = Return r s1 ∧ hide_offer t2 b s1 = Return r s2
        ∧ hide_offer t2 b s = Return r s1' ∧ hide_offer t1 a s1' = Return r s2)).
Proof.
  split.
  - eexists _, _, _, _, _. split; [apply save_offer_run|].
    split; [apply hide_offer_run|]. split; [apply hide_offer_run|].
    by rewrite save_offer_run.
  - intros Hne. split.
    + eexists _, _, _, _. split; [apply save_offer_run|].
      split; [apply save_offer_run|]. split; [apply save_offer_run|].
      rewrite save_offer_run. f_equal. simpl. f_equal. by apply insert_insert_ne.
    + eexists _, _, _, _. split; [apply hide_offer_run|].
      split; [apply hide_offer_run|]. split; [apply hide_offer_run|].
      rewrite hide_offer_run. f_equal. simpl. f_equal. by apply insert_insert_ne.
Qed.

(** ** Search within the listing *)

(** A search returns only catalog offers that are in neither dictionary
    after the purge and whose text passes the two filters, for every limit;
    with a limit that is at least the catalog size, it returns the entries
    of the listing whose text passes the filters, in the order of the
    listing. *)
Theorem search_within_listing lower q loc radius pensum now limit s :
  ∃ listed found s',
    list_offers now limit s = Return listed s'
    ∧ search_offers lower q loc radius pensum now limit s = Return found s'
    ∧ (∀ job, In job found →
         In job (_fake_jobs s)
         ∧ _saved_jobs s' !! id job = None ∧ _hidden_jobs s' !! id job = None
         ∧ matches_text lower q loc job = true)
    ∧ (Z.of_nat (length (_fake_jobs s)) ≤ limit →
       found = List.filter (matches_text lower q loc) listed).
Proof.
  eexists _, _, _. split; [apply list_offers_run|].
  split; [apply search_offers_run|]. cbv zeta.
  set (s' := purged (now - timedelta_days 90) s).
  assert (Hjobs : _fake_jobs s' = _fake_jobs s) by done. split.
  - intros job Hin%In_slice_to. apply In_found in Hin as (Hin & Hfree & Htext).
    apply not_tracked_true in Hfree as [Hs Hh]. rewrite <- Hjobs. tauto.
  - intros Hlimit.
    pose proof (filter_length_le (not_tracked s') (_fake_jobs s')).
    pose proof (filter_length_le (matches lower q loc s') (_fake_jobs s')).
    rewrite !slice_to_all by (rewrite Hjobs in *; lia).
    rewrite filter_filter_andb. apply List.filter_ext. intros job.
    apply matches_split.
Qed.

(** ** The text filters *)

Lemma truthy_true s : truthy s = true ↔ s ≠ "".
Proof. destruct s; simpl; split; congruence. Qed.

Lemma truthy_iff s1 s2 : (s1 = "" ↔ s2 = "") → truthy s1 = truthy s2.
Proof.
  intros H. destruct s1, s2; simpl; try done.
  - destruct H as [H _]. by specialize (H eq_refl).
  - destruct H as [_ H]. by specialize (H eq_refl).
Qed.

(** A search depends on the query and on the location only through their
    lower-case forms (and through whether they are empty): two queries with
    the same lower-case form, with two locations with the same lower-case
    form, give the same result and leave the same store. *)
Theorem search_folds_case lower q1 q2 loc1 loc2 radius pensum now limit s :
  lower q1 = lower q2 → (q1 = "" ↔ q2 = "") →
  lower loc1 = lower loc2 → (loc1 = "" ↔ loc2 = "") →
  search_offers lower q1 loc1 radius pensum now limit s
  = search_offers lower q2 loc2 radius pensum now limit s.
Proof.
  intros Hq Hqe Hloc Hloce. rewrite !search_offers_run. cbv zeta.
  f_equal. f_equal. apply List.filter_ext. intros job.
  unfold matches. by rewrite Hq, Hloc, (truthy_iff q1 q2 Hqe), (truthy_iff loc1 loc2 Hloce).
Qed.

Lemma search_folds_case_witness :
  lower_ascii "Sample JOB" = lower_ascii "sAMPLE job"
  ∧ lower_ascii "ZURICH" = lower_ascii "zurich"
  ∧ search_offers lower_ascii "Sample JOB" "ZURICH" 0 "" 0 10 initial_store
    = search_offers lower_ascii "sAMPLE job" "zurich" 0 "" 0 10 initial_store.
Proof.
  split; [reflexivity|]. split; [reflexivity|].
  apply (search_folds_case lower_ascii "Sample JOB" "sAMPLE job" "ZURICH" "zurich");
    [reflexivity | split; discriminate | reflexivity | split; discriminate].
Defined.

Lemma prefix_app needle hay :
  String.prefix needle hay = true ↔ ∃ post, hay = needle +:+ post.
Proof.
  revert hay. induction needle as [|a needle IH]; intros hay.
  - destruct hay; simpl; split; eauto.
  - destruct hay as [|b hay]; simpl.
    + split; [discriminate|]. intros [post Hpost]. discriminate.
    + destruct (ascii_dec a b) as [->|Hne].
      * rewrite IH. split; intros [post Hpost]; exists post.
        -- by rewrite Hpost.
        -- by injection Hpost.
      * split; [discriminate|]. intros [post Hpost]. injection Hpost as Hab _.
        congruence.
Qed.

Lemma str_in_substring needle hay :
  str_in needle hay = true ↔ ∃ pre post, hay = pre +:+ needle +:+ post.
Proof.
  induction hay as [|c hay IH]; cbn [str_in]; rewrite orb_true_iff, prefix_app.
  - split.
    + intros [[post Hpost]|Hf]; [|discriminate]. by exists "", post.
    + intros (pre & post & Heq). left. destruct pre; [by exists post|discriminate].
  - rewrite IH. split.
    + intros [[post Hpost]|(pre & post & Heq)].
      * by exists "", post.
      * exists (String c pre), post. simpl. by rewrite Heq.
    + intros (pre & post & Heq). destruct pre as [|a pre].
      * left. by exists post.
      * right. simpl in Heq. injection Heq as _ Heq. by exists pre, post.
Qed.

(** What a search with a limit that is at least the catalog size returns: an
    offer is found if and only if it is a catalog offer in neither
    dictionary after the purge and, for a query that is not empty, the
    lower-case query occurs in the lower-case title, a space and the
    lower-case description written in a row and, for a location that is not
    empty, the lower-case location occurs in the lower-case location of the
    offer.  The query may thus match across the space, from the end of the
    title into the description. *)
Theorem search_finds_substrings lower q loc radius pensum now limit s :
  Z.of_nat (length (_fake_jobs s)) ≤ limit →
  ∃ found s',
    search_offers lower q loc radius pensum now limit s = Return found s'
    ∧ ∀ job, In job found ↔
        In job (_fake_jobs s)
        ∧ (_saved_jobs s' !! id job = None ∧ _hidden_jobs s' !! id job = None)
        ∧ (q = "" ∨ ∃ pre post,
             lower (title job) +:+ " " +:+ lower (description job)
             = pre +:+ lower q +:+ post)
        ∧ (loc = "" ∨ ∃ pre post, lower (location job) = pre +:+ lower loc +:+ post).
Proof.
  intros Hlimit. eexists _, _. split; [apply search_offers_run|]. cbv zeta.
  set (s' := purged (now - timedelta_days 90) s).
  assert (Hjobs : _fake_jobs s' = _fake_jobs s) by done.
  pose proof (filter_length_le (matches lower q loc s') (_fake_jobs s')).
  rewrite slice_to_all by (rewrite Hjobs in *; lia).
  intros job. rewrite In_found, Hjobs, not_tracked_true.
  unfold matches_text. rewrite andb_true_iff, !negb_true_iff, !andb_false_iff,
    !negb_false_iff, <- !str_in_substring.
  assert (Hq : truthy q = false ↔ q = "") by (destruct q; simpl; split; congruence).
  assert (Hloc : truthy loc = false ↔ loc = "") by (destruct loc; simpl; split; congruence).
  rewrite Hq, Hloc. tauto.
Qed.

Lemma search_finds_substrings_witness :
  let job := {| id := "x-1"; title := "Senior Baker"; company := "c"; location := "Bern";
                description := "Needed now"; source := "s"; url := "u" |} in
  let s := {| _fake_jobs := [job]; _saved_jobs := ∅; _hidden_jobs := ∅ |} in
  Z.of_nat (length (_fake_jobs s)) ≤ 1
  ∧ ∃ found s', search_offers lower_ascii "BAKER NEEDED" "" 0 "" 0 1 s = Return found s'
                ∧ In job found.
Proof.
  cbv zeta.
  set (job := {| id := "x-1"; title := "Senior Baker"; company := "c"; location := "Bern";
                 description := "Needed now"; source := "s"; url := "u" |}).
  set (s := {| _fake_jobs := [job]; _saved_jobs := ∅; _hidden_jobs := ∅ |}).
  assert (Hlimit : Z.of_nat (length (_fake_jobs s)) ≤ 1) by (simpl; lia).
  split; [exact Hlimit|].
  destruct (search_finds_substrings lower_ascii "BAKER NEEDED" "" 0 "" 0 1 s Hlimit)
    as (found & s' & Hrun & Hiff).
  exists found, s'. split; [exact Hrun|]. apply Hiff.
  split; [by left|]. split.
  - pose proof (lookup_purged_None (0 - timedelta_days 90) SavedJobs s (id job)) as Hs.
    pose proof (lookup_purged_None (0 - timedelta_days 90) HiddenJobs s (id job)) as Hh.
    rewrite search_offers_run in Hrun. injection Hrun as _ <-.
    split; [apply Hs|apply Hh]; intros t Ht; simpl in Ht; by rewrite lookup_empty in Ht.
  - split; [|by left]. right. by exists "senior ", " now".
Defined.

(** ** Distinct ids *)

Lemma format_int_inj i j : format_int i = format_int j → i = j.
Proof.
  unfold format_int. intros H.
  apply (f_equal NilEmpty.uint_of_string) in H. rewrite !NilEmpty.usu in H.
  injection H as H. by apply Unsigned.to_uint_inj.
Qed.

Lemma NoDup_map_inj {A B : Type} (f : A → B) (l : list A) :
  (∀ x y, f x = f y → x = y) → NoDup l → NoDup (map f l).
Proof.
  intros Hinj. induction 1 as [|x l Hx Hnd IH]; simpl; constructor; [|done].
  intros Hin. apply list_elem_of_In, in_map_iff in Hin as (y & Hy & Hin).
  apply Hinj in Hy as ->. by apply Hx, list_elem_of_In.
Qed.

Lemma fake_job_id_inj i j : id (fake_job i) = id (fake_job j) → i = j.
Proof. intros H. simpl in H. injection H as H. by apply format_int_inj. Qed.

Lemma fake_jobs_range_distinct range :
  NoDup range → NoDup (map id (map fake_job range)).
Proof.
  intros Hnd. rewrite map_map. apply NoDup_map_inj; [|done].
  intros i j. apply fake_job_id_inj.
Qed.

Lemma initial_store_distinct_ids : NoDup (map id (_fake_jobs initial_store)).
Proof. apply fake_jobs_range_distinct, NoDup_ListNoDup, seq_NoDup. Qed.

(** The catalog built by the module gives different offers different ids
    and different urls: the offers made from two numbers have the same id
    (or the same url, or the same title) only if the numbers are the same,
    so that over any range without repetition, and over [range(1, 21)] in
    particular, no id occurs twice. *)
Theorem fake_jobs_distinct_ids :
  (∀ i j, id (fake_job i) = id (fake_job j) → i = j)
  ∧ (∀ i j, url (fake_job i) = url (fake_job j) → i = j)
  ∧ (∀ i j, title (fake_job i) = title (fake_job j) → i = j)
  ∧ (∀ range, NoDup range → NoDup (map id (map fake_job range)))
  ∧ NoDup (map id (_fake_jobs initial_store))
  ∧ length (_fake_jobs initial_store) = 20%nat.
Proof.
  split; [exact fake_job_id_inj|]. split.
  { intros i j H. simpl in H. injection H as H. by apply format_int_inj. }
  split.
  { intros i j H. simpl in H. injection H as H. by apply format_int_inj. }
  split; [exact fake_jobs_range_distinct|].
  split; [exact initial_store_distinct_ids|reflexivity].
Qed.

Lemma NoDup_map_filter {A B : Type} (f : A → B) (g : A → bool) (l : list A) :
  NoDup (map f l) → NoDup (map f (List.filter g l)).
Proof.
  induction l as [|x l IH]; simpl; [done|].
  intros [Hx Hnd]%NoDup_cons. destruct (g x); simpl; [|by apply IH].
  apply NoDup_cons. split; [|by apply IH].
  intros Hin. apply Hx. apply list_elem_of_In in Hin. apply list_elem_of_In.
  apply in_map_iff in Hin as (y & Hy & Hin). apply in_map_iff.
  exists y. split; [done|]. by apply filter_In in Hin as [? _].
Qed.

Lemma NoDup_map_firstn {A B : Type} (f : A → B) n (l : list A) :
  NoDup (map f l) → NoDup (map f (firstn n l)).
Proof.
  revert n. induction l as [|x l IH]; intros n Hnd.
  { rewrite firstn_nil. constructor. }
  destruct n as [|n]; simpl; [constructor|].
  simpl in Hnd. apply NoDup_cons in Hnd as [Hx Hnd].
  apply NoDup_cons. split; [|by apply IH].
  intros Hin. apply Hx. apply list_elem_of_In in Hin. apply list_elem_of_In.
  apply in_map_iff in Hin as (y & Hy & Hin). apply in_map_iff.
  exists y. split; [done|]. rewrite <- (firstn_skipn n l). apply in_or_app. by left.
Qed.

Lemma NoDup_map_slice_to {A B : Type} (f : A → B) limit (l : list A) :
  NoDup (map f l) → NoDup (map f (slice_to limit l)).
Proof. destruct (slice_to_firstn limit l) as [n ->]. apply NoDup_map_firstn. Qed.

(** When no id occurs twice in the catalog, no id occurs twice in the result
    of a listing or of a search, for every limit. *)
Theorem results_have_distinct_ids lower q loc radius pensum now limit s :
  NoDup (map id (_fake_jobs s)) →
  ∃ listed found s',
    list_offers now limit s = Return listed s'
    ∧ search_offers lower q loc radius pensum now limit s = Return found s'
    ∧ NoDup (map id listed) ∧ NoDup (map id found)
    ∧ NoDup (map id (_fake_jobs s')).
Proof.
  intros Hnd. eexists _, _, _. split; [apply list_offers_run|].
  split; [apply search_offers_run|]. cbv zeta.
  split; [by apply NoDup_map_slice_to, NoDup_map_filter|].
  split; [by apply NoDup_map_slice_to, NoDup_map_filter|done].
Qed.

Lemma results_have_distinct_ids_witness :
  NoDup (map id (_fake_jobs initial_store))
  ∧ ∃ listed s', list_offers 0 (-3) initial_store = Return listed s'
                 ∧ NoDup (map id listed).
Proof.
  split; [exact initial_store_distinct_ids|].
  destruct (results_have_distinct_ids lower_ascii "" "" 0 "" 0 (-3) initial_store
              initial_store_distinct_ids)
    as (listed & _ & s' & Hl & _ & Hdistinct & _).
  exists listed, s'. split; [exact Hl|exact Hdistinct].
Defined.

(** ** The origin list *)

Lemma str_split_cons sep s : ∃ piece pieces, str_split sep s = piece :: pieces.
Proof.
  induction s as [|c s (piece & pieces & IH)]; simpl; [eauto|].
  destruct (Ascii.eqb c sep); [eauto|]. rewrite IH. eauto.
Qed.

Lemma str_split_length sep s : length (str_split sep s) = S (str_count sep s).
Proof.
  induction s as [|c s IH]; simpl; [done|].
  destruct (Ascii.eqb c sep); simpl; [by rewrite IH|].
  destruct (str_split_cons sep s) as (piece & pieces & Hs).
  rewrite Hs in *. simpl in *. done.
Qed.

Lemma str_split_no_sep sep s piece :
  In piece (str_split sep s) → str_count sep piece = 0%nat.
Proof.
  revert piece. induction s as [|c s IH]; simpl; intros piece Hin.
  - by destruct Hin as [<-|[]].
  - destruct (Ascii.eqb c sep) eqn:Hc.
    + destruct Hin as [<-|Hin]; [done|by apply IH].
    + destruct (str_split_cons sep s) as (p & ps & Hs). rewrite Hs in *.
      destruct Hin as [<-|Hin].
      * simpl. rewrite Hc. apply IH. by left.
      * apply IH. by right.
Qed.

Lemma str_split_concat sep s :
  String.concat (String sep "") (str_split sep s) = s.
Proof.
  induction s as [|c s IH]; simpl; [done|].
  destruct (str_split_cons sep s) as (p & ps & Hs). rewrite Hs in *.
  destruct (Ascii.eqb_spec c sep) as [->|Hne].
  - simpl. simpl in IH. by rewrite IH.
  - simpl in *. destruct ps; simpl in *; by rewrite <- IH.
Qed.

Lemma append_String c s1 s2 : String c s1 +:+ s2 = String c (s1 +:+ s2).
Proof. reflexivity. Qed.

Lemma append_empty_l s : "" +:+ s = s.
Proof. reflexivity. Qed.

Lemma lstrip_spec isspace s :
  ∃ pre, s = pre +:+ lstrip isspace s
         ∧ str_forallb isspace pre = true
         ∧ ∀ c, str_first (lstrip isspace s) = Some c → isspace c = false.
Proof.
  induction s as [|c s (pre & Hs & Hpre & Hfirst)]; cbn [lstrip].
  - exists "". by repeat split.
  - destruct (isspace c) eqn:Hc.
    + exists (String c pre). split; [rewrite append_String; by f_equal|].
      split; [cbn [str_forallb]; by rewrite Hc|done].
    + exists "". split; [done|]. split; [done|].
      cbn [str_first]. intros c' [= <-]. exact Hc.
Qed.

Lemma rstrip_spec isspace s :
  ∃ post, s = rstrip isspace s +:+ post
          ∧ str_forallb isspace post = true
          ∧ ∀ c, str_last (rstrip isspace s) = Some c → isspace c = false.
Proof.
  induction s as [|c s (post & Hs & Hpost & Hlast)]; cbn [rstrip].
  - exists "". by repeat split.
  - destruct (rstrip isspace s) as [|a r] eqn:Hr.
    + rewrite append_empty_l in Hs. destruct (isspace c) eqn:Hc.
      * exists (String c post). rewrite append_empty_l.
        split; [by f_equal|]. split; [cbn [str_forallb]; by rewrite Hc|done].
      * exists post. rewrite append_String, append_empty_l.
        split; [by f_equal|]. split; [done|].
        cbn [str_last]. intros c' [= <-]. exact Hc.
    + exists post. rewrite append_String. split; [by f_equal|]. split; [done|].
      intros c' Hc'. apply Hlast. exact Hc'.
Qed.

Lemma str_last_app pre s : s ≠ "" → str_last (pre +:+ s) = str_last s.
Proof.
  intros Hs. induction pre as [|c pre IH]; [done|].
  rewrite append_String. cbn [str_last]. rewrite IH.
  destruct (pre +:+ s) eqn:Happ; [|done].
  destruct pre; [rewrite append_empty_l in Happ; contradiction|].
  rewrite append_String in Happ. discriminate.
Qed.

Lemma append_assoc s1 s2 s3 : (s1 +:+ s2) +:+ s3 = s1 +:+ s2 +:+ s3.
Proof.
  induction s1 as [|c s1 IH]; [done|]. rewrite !append_String. by rewrite IH.
Qed.

Lemma strip_spec isspace s :
  ∃ pre post,
    s = pre +:+ strip isspace s +:+ post
    ∧ str_forallb isspace pre = true ∧ str_forallb isspace post = true
    ∧ (∀ c, str_first (strip isspace s) = Some c → isspace c = false)
    ∧ (∀ c, str_last (strip isspace s) = Some c → isspace c = false).
Proof.
  unfold strip.
  destruct (rstrip_spec isspace s) as (post & Hs & Hpost & Hlast).
  destruct (lstrip_spec isspace (rstrip isspace s)) as (pre & Hr & Hpre & Hfirst).
  exists pre, post. split.
  { rewrite <- append_assoc, <- Hr. exact Hs. }
  split; [done|]. split; [done|]. split; [exact Hfirst|].
  intros c Hc. apply Hlast. rewrite Hr.
  rewrite str_last_app; [done|]. intros Hnil. by rewrite Hnil in Hc.
Qed.

Lemma str_count_app c s1 s2 :
  str_count c (s1 +:+ s2) = (str_count c s1 + str_count c s2)%nat.
Proof.
  induction s1 as [|a s1 IH]; [done|].
  rewrite append_String. cbn [str_count]. rewrite IH. lia.
Qed.

Lemma strip_idem isspace s : strip isspace (strip isspace s) = strip isspace s.
Proof.
  destruct (strip_spec isspace s) as (_ & _ & _ & _ & _ & Hfirst & Hlast).
  set (x := strip isspace s) in *. unfold strip.
  assert (Hr : rstrip isspace x = x).
  { clear Hfirst. induction x as [|c x IH]; [done|]. cbn [rstrip].
    destruct x as [|a x].
    - cbn [rstrip]. by rewrite (Hlast c eq_refl).
    - rewrite IH; [done|]. intros c' Hc'. by apply Hlast. }
  rewrite Hr. destruct x as [|c x]; [done|]. cbn [lstrip].
  by rewrite (Hfirst c eq_refl).
Qed.

(** The origin list is made of the fields of the value of
    [ALLOWED_ORIGINS] (or of "*" when the variable is not set) between its
    commas, one more than it has commas, each stripped: the list is never
    empty, the fields joined by commas give the value back, and an empty
    value gives the single origin "". *)
Theorem allowed_origins_fields isspace environ :
  let value := getenv environ "ALLOWED_ORIGINS" "*" in
  (environ !! "ALLOWED_ORIGINS" = None → value = "*")
  ∧ (∀ v, environ !! "ALLOWED_ORIGINS" = Some v → value = v)
  ∧ (∃ fields,
       String.concat "," fields = value
       ∧ (∀ field, In field fields → str_count "," field = 0%nat)
       ∧ allowed_origins isspace environ = map (strip isspace) fields)
  ∧ length (allowed_origins isspace environ) = S (str_count "," value)
  ∧ allowed_origins isspace environ ≠ []
  ∧ (value = "" → allowed_origins isspace environ = [""]).
Proof.
  intros value. unfold allowed_origins. fold value.
  split; [by unfold value, getenv; intros ->|].
  split; [by unfold value, getenv; intros v ->|].
  split.
  { exists (str_split "," value). split; [apply str_split_concat|].
    split; [apply str_split_no_sep|done]. }
  split; [by rewrite length_map, str_split_length|].
  split.
  { destruct (str_split_cons "," value) as (p & ps & ->). discriminate. }
  by intros ->.
Qed.

(** Every origin of the list is a field of the value with the white space
    at its two ends removed, and nothing else: the field is white space, the
    origin, and white space again; the origin neither starts nor ends with
    white space, holds no comma, and stripping it again changes nothing. *)
Theorem allowed_origins_stripped isspace environ origin :
  In origin (allowed_origins isspace environ) →
  (∃ field pre post,
     In field (str_split "," (getenv environ "ALLOWED_ORIGINS" "*"))
     ∧ field = pre +:+ origin +:+ post
     ∧ str_forallb isspace pre = true ∧ str_forallb isspace post = true)
  ∧ (∀ c, str_first origin = Some c → isspace c = false)
  ∧ (∀ c, str_last origin = Some c → isspace c = false)
  ∧ str_count "," origin = 0%nat
  ∧ strip isspace origin = origin.
Proof.
  unfold allowed_origins. intros Hin.
  apply in_map_iff in Hin as (field & <- & Hin).
  destruct (strip_spec isspace field) as (pre & post & Hf & Hpre & Hpost & Hfirst & Hlast).
  split; [by exists field, pre, post|]. split; [exact Hfirst|]. split; [exact Hlast|].
  split; [|apply strip_idem].
  pose proof (str_split_no_sep _ _ _ Hin) as Hcount.
  rewrite Hf, !str_count_app in Hcount. lia.
Qed.

Lemma allowed_origins_stripped_witness :
  let environ : gmap string string :=
    {[ "ALLOWED_ORIGINS" := " https://a.example ,https://b.example" ]} in
  In "https://a.example" (allowed_origins isspace_ascii environ)
  ∧ allowed_origins isspace_ascii environ = ["https://a.example"; "https://b.example"]
  ∧ strip isspace_ascii "https://a.example" = "https://a.example".
Proof.
  cbv zeta.
  assert (Hin : In "https://a.example"
                  (allowed_origins isspace_ascii
                     {[ "ALLOWED_ORIGINS" := " https://a.example ,https://b.example" ]}))
    by (vm_compute; tauto).
  split; [exact Hin|]. split; [vm_compute; reflexivity|].
  exact (proj2 (proj2 (proj2 (proj2
    (allowed_origins_stripped isspace_ascii _ _ Hin))))).
Defined.
